(** * new_python_based_image.py: version rewriting, path discovery, copy,
      tree rewriting and lock regeneration

    A shallow embedding of [scripts/new_python_based_image.py].  Python
    [str] values are modelled by [string] (sequences of 8-bit characters);
    every pattern the script searches for is plain ASCII, so matching on the
    encoded text agrees with matching on code points. *)

From Stdlib Require Import String Ascii List Bool Arith Lia Permutation.
Import ListNotations.
Open Scope string_scope.

(* ================================================================== *)
(** ** Python string primitives *)
(* ================================================================== *)

Module PyStr.

(** [s.startswith(p)] *)
Fixpoint startswith (s p : string) : bool :=
  match p with
  | "" => true
  | String c p' =>
      match s with
      | "" => false
      | String d s' => Ascii.eqb c d && startswith s' p'
      end
  end.

(** [sub in s] *)
Fixpoint contains (sub s : string) : bool :=
  startswith s sub ||
  match s with
  | "" => false
  | String _ s' => contains sub s'
  end.

(** [s.replace("", new)]: [new] is inserted before every character and at
    the end. *)
Fixpoint replace_empty (new s : string) : string :=
  match s with
  | "" => new
  | String c s' => new ++ String c (replace_empty new s')
  end.

(** The left-to-right scan of [s.replace(old, new)] for a non-empty [old].
    [skip] counts the characters of the occurrence just replaced that are
    still to be stepped over, so occurrences never overlap. *)
Fixpoint replace_from (old new : string) (skip : nat) (s : string) : string :=
  match s with
  | "" => ""
  | String c s' =>
      match skip with
      | S k => replace_from old new k s'
      | O =>
          if startswith s old
          then new ++ replace_from old new (String.length old - 1) s'
          else String c (replace_from old new 0 s')
      end
  end.

(** [s.replace(old, new)] *)
Definition str_replace (s old new : string) : string :=
  match old with
  | "" => replace_empty new s
  | _ => replace_from old new 0 s
  end.

(** The scan of [s.split(sep)] for a non-empty [sep]; [cur] is the piece
    being accumulated. *)
Fixpoint split_from (sep : string) (skip : nat) (cur s : string) : list string :=
  match s with
  | "" => [cur]
  | String c s' =>
      match skip with
      | S k => split_from sep k cur s'
      | O =>
          if startswith s sep
          then cur :: split_from sep (String.length sep - 1) "" s'
          else split_from sep 0 (cur ++ String c "") s'
      end
  end.

(** [s.split(sep)]; [None] is the [ValueError] raised for an empty
    separator. *)
Definition str_split (s sep : string) : option (list string) :=
  match sep with
  | "" => None
  | _ => Some (split_from sep 0 "" s)
  end.

(** [sep.join(l)] *)
Fixpoint str_join (sep : string) (l : list string) : string :=
  match l with
  | [] => ""
  | [x] => x
  | x :: xs => x ++ sep ++ str_join sep xs
  end.

(** [c in s] for a single character. *)
Fixpoint has_char (c : ascii) (s : string) : bool :=
  match s with
  | "" => false
  | String d s' => Ascii.eqb c d || has_char c s'
  end.

(** ASCII decimal digit, the class [\d] restricted to 8-bit text. *)
Definition is_digit (c : ascii) : bool :=
  ((48 <=? nat_of_ascii c) && (nat_of_ascii c <=? 57))%nat.

Fixpoint all_digits (s : string) : bool :=
  match s with
  | "" => true
  | String c s' => is_digit c && all_digits s'
  end.

End PyStr.
Import PyStr.

(* ================================================================== *)
(** ** Version tokens *)
(* ================================================================== *)

(** [extract_python_version]: [version.split(".")[:2]] *)
Definition extract_python_version (version : string) : list string :=
  match str_split version "." with
  | Some parts => firstn 2 parts
  | None => []
  end.

(** [replace_python_version_in_content].  The two tuple unpackings raise
    [ValueError] unless each version has at least two dot-separated
    components; that is the [None] result. *)
Definition replace_python_version_in_content
    (content source_version target_version : string) : option string :=
  match extract_python_version source_version,
        extract_python_version target_version with
  | [source_major; source_minor], [target_major; target_minor] =>
      let result := str_replace content source_version target_version in
      let result := str_replace result
                      (source_major ++ "-" ++ source_minor)
                      (target_major ++ "-" ++ target_minor) in
      let result := str_replace result
                      ("python-" ++ source_major ++ source_minor)
                      ("python-" ++ target_major ++ target_minor) in
      let result := str_replace result
                      ("py" ++ source_major ++ source_minor)
                      ("py" ++ target_major ++ target_minor) in
      Some result
  | _, _ => None
  end.

(** The four textual forms of a version that the rewriting looks for:
    dotted, dashed, prefixed and bare. *)
Definition version_forms (version : string) : list string :=
  match extract_python_version version with
  | [major; minor] =>
      [version; major ++ "-" ++ minor;
       "python-" ++ major ++ minor; "py" ++ major ++ minor]
  | _ => []
  end.

(** Some non-empty suffix of [p] is a prefix of [q]. *)
Fixpoint suffix_meets_prefix (p q : string) : bool :=
  match p with
  | "" => false
  | String _ p' => startswith q p || suffix_meets_prefix p' q
  end.

(** Occurrences of [p] and of [q] can never share a character: neither
    overlaps the other at an end and neither lies inside the other. *)
Definition apart (p q : string) : bool :=
  negb (suffix_meets_prefix p q) && negb (suffix_meets_prefix q p)
  && negb (contains p q) && negb (contains q p).

(** No proper non-empty suffix of [p] is a prefix of [p]: two occurrences
    of [p] never overlap. *)
Definition unbordered (p : string) : bool :=
  match p with
  | "" => true
  | String _ p' => negb (suffix_meets_prefix p' p)
  end.

(** Forms of different shape, taken from [l1] and [l2], are [apart]. *)
Fixpoint shapes_apart (l1 l2 : list string) : bool :=
  match l1, l2 with
  | x :: l1', y :: l2' =>
      forallb (apart x) l2' && forallb (apart y) l1' && shapes_apart l1' l2'
  | _, _ => true
  end.

(** A version pair whose forms keep out of each other's way. *)
Definition forms_independent (source_version target_version : string) : bool :=
  let S := version_forms source_version in
  let T := version_forms target_version in
  shapes_apart S S && shapes_apart T T && shapes_apart S T
  && forallb unbordered T.

(** A non-empty run of decimal digits. *)
Definition is_number (s : string) : bool :=
  negb (s =? "") && all_digits s.

(** The fixed sequence of substitutions, spelled out. *)
Definition apply_patterns (patterns : list (string * string)) (text : string) : string :=
  fold_left (fun text pr => str_replace text (fst pr) (snd pr)) patterns text.

(** Rewriting from [s] to [t] and then from [t] back to [s]. *)
Definition rewrite_there_and_back (text s t : string) : option string :=
  match replace_python_version_in_content text s t with
  | Some text' => replace_python_version_in_content text' t s
  | None => None
  end.

(** None of the forms of [version] occurs in [text]. *)
Definition free_of_forms (version text : string) : bool :=
  forallb (fun form => negb (contains form text)) (version_forms version).

(** [\d+] and then [k] on what follows; [seen] tells whether a digit has
    been read. *)
Fixpoint match_digits_then (k : string -> bool) (seen : bool) (s : string) : bool :=
  match s with
  | "" => seen && k ""
  | String c s' =>
      if is_digit c then match_digits_then k true s' else seen && k s
  end.

(** [$]: the end of the string, or just before a final newline. *)
Definition at_end (s : string) : bool :=
  match s with
  | "" => true
  | String c "" => Ascii.eqb c "010"%char
  | _ => false
  end.

(** [check_python_version]: [re.match(r'^\d+\.\d+$', version)]; [false] is
    the [sys.exit(1)]. *)
Definition check_python_version (version : string) : bool :=
  match_digits_then
    (fun rest =>
       match rest with
       | String "."%char rest' => match_digits_then at_end false rest'
       | _ => false
       end)
    false version.

(** [check_input_versions_not_equal] *)
Definition check_input_versions_not_equal (source_version target_version : string) : bool :=
  negb (source_version =? target_version).

(* ================================================================== *)
(** ** Directory trees and [os.walk] *)
(* ================================================================== *)

(** A directory tree.  [File] carries the text [read()] returns; the order
    of [entries] is the order in which [os.scandir] lists them. *)
#[warnings="-register-all"]
Inductive node : Type :=
| File (content : string)
| Dir (entries : list (string * node)).

Definition is_dir (n : node) : bool :=
  match n with Dir _ => true | File _ => false end.

(** The [dirs] and [files] lists that [os.walk] builds from one listing. *)
Definition dir_names (entries : list (string * node)) : list string :=
  map fst (filter (fun e => is_dir (snd e)) entries).

Definition file_names (entries : list (string * node)) : list string :=
  map fst (filter (fun e => negb (is_dir (snd e))) entries).

Fixpoint endswith (s suffix : string) : bool :=
  (s =? suffix) ||
  match s with
  | "" => false
  | String _ s' => endswith s' suffix
  end.

(** [os.path.join(a, b)] of [posixpath] (the script refuses to run on
    anything but Linux). *)
Definition os_path_join (a b : string) : string :=
  if startswith b "/" then b
  else if (a =? "") || endswith a "/" then a ++ b
  else a ++ "/" ++ b.

(** [x in l] for a list of strings. *)
Definition in_list (x : string) (l : list string) : bool :=
  existsb (String.eqb x) l.

Section TopDownWalk.
Context {St : Type}.

(** The body of a [for root, dirs, files in os.walk(top)] loop: it
    updates the loop state and tells whether it emptied [dirs] in place
    ([dirs[:] = []]), which stops the descent below [root]. *)
Variable body : string -> list string -> list string -> St -> St * bool.

(** [os.walk(top)], top-down.  Nothing is yielded for a [top] that is
    not a directory. *)
Fixpoint os_walk (top : string) (n : node) (st : St) : St :=
  match n with
  | File _ => st
  | Dir entries =>
      let '(st1, pruned) := body top (dir_names entries) (file_names entries) st in
      if pruned then st1
      else
        (fix walk_entries (es : list (string * node)) (st : St) : St :=
           match es with
           | [] => st
           | (name, sub) :: es' =>
               match sub with
               | Dir _ => walk_entries es' (os_walk (os_path_join top name) sub st)
               | File _ => walk_entries es' st
               end
           end) entries st1
  end.
End TopDownWalk.

(** The triples [(root, dirs, files)] that [os.walk] yields when the
    consumer empties [dirs] exactly at the roots selected by [prune]. *)
Definition visit : Type := string * list string * list string.

Definition visit_root (v : visit) : string := fst (fst v).
Definition visit_dirs (v : visit) : list string := snd (fst v).
Definition visit_files (v : visit) : list string := snd v.

Fixpoint os_walk_trace (prune : string -> bool) (top : string) (n : node) : list visit :=
  match n with
  | File _ => []
  | Dir entries =>
      (top, dir_names entries, file_names entries) ::
      (if prune top then []
       else
         (fix trace_entries (es : list (string * node)) : list visit :=
            match es with
            | [] => []
            | (name, sub) :: es' =>
                (os_walk_trace prune (os_path_join top name) sub ++ trace_entries es')%list
            end) entries)
  end.

(* ================================================================== *)
(** ** PathScanner: [find_matching_paths] *)
(* ================================================================== *)

Definition excluded_names : list string :=
  [".git"; ".github"; "ci"; "docs"; "manifests"; "scripts"; "tests"].

Definition blocklist : list string := map (os_path_join ".") excluded_names.

(** [any(blocked in root for blocked in blocklist)] *)
Definition is_blocked (root : string) : bool :=
  existsb (fun blocked => contains blocked root) blocklist.

Record find_state : Type := mk_find_state {
  matching_paths : list string;
  processed_dirs : list string
}.

Definition find_body (source_version match_ : string)
    (root : string) (dirs files : list string) (st : find_state)
    : find_state * bool :=
  if is_blocked root then (st, true)
  else if contains source_version root && contains match_ root then
    ((if in_list "Dockerfile" files && negb (in_list root (processed_dirs st))
      then mk_find_state (matching_paths st ++ [root]) (root :: processed_dirs st)
      else st), true)
  else (st, false).

(** [find_matching_paths(context_dir, source_version, match)]; [tree] is
    what the filesystem holds at [context_dir]. *)
Definition find_matching_paths (context_dir source_version match_ : string)
    (tree : node) : list string :=
  let st := os_walk (find_body source_version match_) context_dir tree
              (mk_find_state [] []) in
  filter (contains source_version) (matching_paths st).

(** Where the loop of [find_matching_paths] empties [dirs]. *)
Definition find_prune (source_version match_ root : string) : bool :=
  is_blocked root || (contains source_version root && contains match_ root).

(** The directories the loop of [find_matching_paths] gets to see. *)
Definition find_visits (context_dir source_version match_ : string)
    (tree : node) : list visit :=
  os_walk_trace (find_prune source_version match_) context_dir tree.

(** A yielded directory that is a candidate: not blocked, both substrings
    in its path, a [Dockerfile] among its files. *)
Definition qualifies (source_version match_ : string) (v : visit) : bool :=
  negb (is_blocked (visit_root v))
  && contains source_version (visit_root v)
  && contains match_ (visit_root v)
  && in_list "Dockerfile" (visit_files v).

(** One turn of the loop of [find_matching_paths] on a yielded triple. *)
Definition find_step (source_version match_ : string)
    (st : find_state) (v : visit) : find_state :=
  fst (find_body source_version match_
         (visit_root v) (visit_dirs v) (visit_files v) st).

(** What the loop keeps true of its two accumulators. *)
Definition find_inv (st : find_state) : Prop :=
  NoDup (matching_paths st) /\
  forall p, In p (matching_paths st) <-> In p (processed_dirs st).

(** [p] is, or lies below, the entry [name] of the directory [top]. *)
Definition beneath (top name p : string) : bool :=
  (p =? os_path_join top name) || startswith p (os_path_join top name ++ "/").

(* ================================================================== *)
(** ** PathMapper: [replace_python_version_on_paths] *)
(* ================================================================== *)

(** A Python [dict] with string keys: insertion-ordered, one entry per key. *)
Definition dict : Type := list (string * string).

(** [d[k] = v] *)
Fixpoint dict_set (d : dict) (k v : string) : dict :=
  match d with
  | [] => [(k, v)]
  | (k', v') :: d' =>
      if k' =? k then (k', v) :: d' else (k', v') :: dict_set d' k v
  end.

(** [{path: path.replace(source_version, target_version) for path in paths_list}] *)
Definition replace_python_version_on_paths
    (paths_list : list string) (source_version target_version : string) : dict :=
  fold_left
    (fun d path => dict_set d path (str_replace path source_version target_version))
    paths_list [].

(** The candidates without repetitions, in order of first appearance: the
    keys of a dict built from them. *)
Definition distinct (l : list string) : list string :=
  fold_left (fun seen x => if in_list x seen then seen else (seen ++ [x])%list) l [].

(* ================================================================== *)
(** ** TreeCopier: [copy_paths] *)
(* ================================================================== *)

Section CopyPaths.
(** The filesystem as [copy_paths] uses it. *)
Variable FS : Type.
(** [os.path.exists] *)
Variable os_path_exists : string -> FS -> bool.
(** [os.makedirs(os.path.dirname(dst), exist_ok=True)] followed by
    [shutil.copytree(src, dst, dirs_exist_ok=True)], run inside the
    [try]: the flag is [false] when one of them raised. *)
Variable copytree : string -> string -> FS -> bool * FS.

Definition copy_state : Type := (list string * list string * FS)%type.

Definition success_of (r : copy_state) : list string := fst (fst r).
Definition failed_of (r : copy_state) : list string := snd (fst r).
Definition fs_of (r : copy_state) : FS := snd r.

(** One iteration of the loop over [paths_dict.items()]. *)
Definition copy_step (acc : copy_state) (item : string * string) : copy_state :=
  let '(success_paths, failed_paths, fs) := acc in
  let '(src_path, dst_path) := item in
  if os_path_exists dst_path fs
  then (success_paths, (failed_paths ++ [dst_path])%list, fs)
  else
    let '(ok, fs') := copytree src_path dst_path fs in
    if ok
    then ((success_paths ++ [dst_path])%list, failed_paths, fs')
    else (success_paths, (failed_paths ++ [dst_path])%list, fs').

Definition copy_loop (items : dict) (acc : copy_state) : copy_state :=
  fold_left copy_step items acc.

Definition copy_paths (paths_dict : dict) (fs : FS) : copy_state :=
  copy_loop paths_dict ([], [], fs).
End CopyPaths.

Arguments success_of {FS} r.
Arguments failed_of {FS} r.
Arguments fs_of {FS} r.
Arguments copy_step {FS} os_path_exists copytree acc item.
Arguments copy_loop {FS} os_path_exists copytree items acc.
Arguments copy_paths {FS} os_path_exists copytree paths_dict fs.

(* ================================================================== *)
(** ** TreeRewriter: [replace_version_in_directory] *)
(* ================================================================== *)

(** Result of a call that may raise.  [NoFuel] is the model's own: the
    recursion bound of [walk_bottomup] was too small. *)
Inductive outcome (A : Type) : Type :=
| Done (a : A)
| Raised
| NoFuel.
Arguments Done {A} a.
Arguments Raised {A}.
Arguments NoFuel {A}.

Definition bind {A B : Type} (c : outcome A) (k : A -> outcome B) : outcome B :=
  match c with
  | Done a => k a
  | Raised => Raised
  | NoFuel => NoFuel
  end.

Notation "x <- c ;; k" := (bind c (fun x => k))
  (at level 61, c at next level, right associativity).

(** A [for] loop whose body may raise. *)
Fixpoint for_each {A X : Type} (body : X -> A -> outcome A) (xs : list X) (a : A)
    : outcome A :=
  match xs with
  | [] => Done a
  | x :: xs' => a' <- body x a ;; for_each body xs' a'
  end.

(** A path below the directory being rewritten, as its list of components:
    [os.path.join(root, name)] is [root ++ [name]]. *)
Definition tree_path : Type := list string.

Fixpoint lookup_entry (name : string) (es : list (string * node)) : option node :=
  match es with
  | [] => None
  | (n, c) :: es' => if n =? name then Some c else lookup_entry name es'
  end.

(** The node a path leads to. *)
Fixpoint lookup (p : tree_path) (n : node) : option node :=
  match p with
  | [] => Some n
  | name :: p' =>
      match n with
      | Dir es =>
          match lookup_entry name es with
          | Some c => lookup p' c
          | None => None
          end
      | File _ => None
      end
  end.

Fixpoint set_entry (name : string) (c : node) (es : list (string * node))
    : list (string * node) :=
  match es with
  | [] => []
  | (n, c0) :: es' =>
      if n =? name then (n, c) :: es' else (n, c0) :: set_entry name c es'
  end.

(** The tree with the node at [p] replaced by [t]. *)
Fixpoint plug (p : tree_path) (t : node) (n : node) : node :=
  match p with
  | [] => t
  | name :: p' =>
      match n with
      | Dir es =>
          match lookup_entry name es with
          | Some c => Dir (set_entry name (plug p' t c) es)
          | None => n
          end
      | File _ => n
      end
  end.

Fixpoint rename_key (old new : string) (es : list (string * node))
    : list (string * node) :=
  match es with
  | [] => []
  | (n, c) :: es' =>
      if n =? old then (new, c) :: es' else (n, c) :: rename_key old new es'
  end.

Fixpoint remove_entry (name : string) (es : list (string * node))
    : list (string * node) :=
  match es with
  | [] => []
  | (n, c) :: es' =>
      if n =? name then es' else (n, c) :: remove_entry name es'
  end.

(** [rename(2)] inside one directory: a file silently replaces a file, a
    directory replaces an empty directory, every other clash is an error,
    and so is a missing source. *)
Definition rename_entry (old new : string) (es : list (string * node))
    : option (list (string * node)) :=
  match lookup_entry old es with
  | None => None
  | Some src =>
      match lookup_entry new es with
      | None => Some (rename_key old new es)
      | Some tgt =>
          match src, tgt with
          | File _, File _ => Some (rename_key old new (remove_entry new es))
          | Dir _, Dir [] => Some (rename_key old new (remove_entry new es))
          | _, _ => None
          end
      end
  end.

(** [os.rename(os.path.join(dir, old), os.path.join(dir, new))] for a
    plain name [new], which is what the rewriting makes of a plain name when
    the target version is numeric. *)
Definition os_rename (dir : tree_path) (old new : string) (fs : node) : outcome node :=
  match lookup dir fs with
  | Some (Dir es) =>
      match rename_entry old new es with
      | Some es' => Done (plug dir (Dir es') fs)
      | None => Raised
      end
  | _ => Raised
  end.

(** [replace_python_version_in_file]: whatever is raised inside the [try]
    (no such file, a directory, a version that does not unpack) is
    swallowed and the file is left as it was. *)
Definition replace_python_version_in_file
    (file_path : tree_path) (source_version target_version : string) (fs : node) : node :=
  match lookup file_path fs with
  | Some (File content) =>
      match replace_python_version_in_content content source_version target_version with
      | Some content' => plug file_path (File content') fs
      | None => fs
      end
  | _ => fs
  end.

(** [rename_file_and_replace_python_version], the local function of
    [replace_version_in_directory]. *)
Definition rename_file_and_replace_python_version
    (path : tree_path) (filename source_version target_version : string)
    (is_file : bool) (fs : node) : outcome node :=
  match replace_python_version_in_content filename source_version target_version with
  | None => Raised
  | Some new_filename =>
      fs1 <- (if filename =? new_filename then Done fs
              else os_rename path filename new_filename fs) ;;
      Done (if is_file
            then replace_python_version_in_file (path ++ [new_filename])%list
                   source_version target_version fs1
            else fs1)
  end.

Section BottomUpWalk.
(** The loop body, run at every yield on the filesystem as it is then. *)
Variable body : tree_path -> list string -> list string -> node -> outcome node.

(** [os.walk(top, topdown=False)] interleaved with its loop body: a
    directory is listed when the walk reaches it, its subdirectories are
    walked in listing order, and only then is it yielded. *)
Fixpoint walk_bottomup (fuel : nat) (top : tree_path) (fs : node) : outcome node :=
  match fuel with
  | O => NoFuel
  | S fuel' =>
      match lookup top fs with
      | Some (Dir es) =>
          fs1 <- for_each (fun d fs => walk_bottomup fuel' (top ++ [d])%list fs)
                   (dir_names es) fs ;;
          body top (dir_names es) (file_names es) fs1
      | _ => Done fs
      end
  end.
End BottomUpWalk.

(** The number of nested directory levels, which bounds the recursion of
    the walk. *)
Fixpoint depth (n : node) : nat :=
  match n with
  | File _ => 0
  | Dir es =>
      S ((fix depth_entries (es : list (string * node)) : nat :=
            match es with
            | [] => 0
            | (_, c) :: es' => Nat.max (depth c) (depth_entries es')
            end) es)
  end.

(** The two inner loops of [replace_version_in_directory]. *)
Definition rewrite_body (source_version target_version : string)
    (root : tree_path) (dirs files : list string) (fs : node) : outcome node :=
  fs1 <- for_each
           (fun file_name fs =>
              rename_file_and_replace_python_version root file_name
                source_version target_version true fs)
           files fs ;;
  for_each
    (fun dir_name fs =>
       rename_file_and_replace_python_version root dir_name
         source_version target_version false fs)
    dirs fs1.

(** [replace_version_in_directory(directory_path, ...)]; [tree] is what the
    filesystem holds at [directory_path], and the result is what it holds
    there afterwards. *)
Definition replace_version_in_directory
    (tree : node) (source_version target_version : string) : outcome node :=
  walk_bottomup (rewrite_body source_version target_version)
    (S (depth tree)) [] tree.

(** The rewriting as a total function on texts: a text is left alone when
    the versions do not unpack. *)
Definition rewrite_text (source_version target_version text : string) : string :=
  match replace_python_version_in_content text source_version target_version with
  | Some text' => text'
  | None => text
  end.

(** The tree with every name and every file content rewritten. *)
Fixpoint rewrite_tree (source_version target_version : string) (n : node) : node :=
  match n with
  | File content => File (rewrite_text source_version target_version content)
  | Dir entries =>
      Dir (map (fun e => (rewrite_text source_version target_version (fst e),
                          rewrite_tree source_version target_version (snd e)))
             entries)
  end.

Fixpoint nodupb (l : list string) : bool :=
  match l with
  | [] => true
  | x :: l' => negb (in_list x l') && nodupb l'
  end.

(** The names of one directory do not get in each other's way under the
    renaming [rw]: they are distinct, so are the new names, and a name that
    changes does not become a name already in the directory. *)
Definition names_ok (rw : string -> string) (names : list string) : bool :=
  nodupb names && nodupb (map rw names)
  && forallb (fun n => (rw n =? n) || negb (in_list (rw n) names)) names.

(** [names_ok] in every directory of the tree. *)
Fixpoint collision_free (rw : string -> string) (n : node) : bool :=
  match n with
  | File _ => true
  | Dir entries =>
      names_ok rw (map fst entries)
      && forallb (fun e => collision_free rw (snd e)) entries
  end.

(** [rename_file_and_replace_python_version] seen from inside the directory
    it works in. *)
Definition rename_in_dir (source_version target_version : string) (is_file : bool)
    (filename : string) (es : list (string * node))
    : outcome (list (string * node)) :=
  match replace_python_version_in_content filename source_version target_version with
  | None => Raised
  | Some new_filename =>
      es1 <- (if filename =? new_filename then Done es
              else match rename_entry filename new_filename es with
                   | Some es' => Done es'
                   | None => Raised
                   end) ;;
      Done (if is_file
            then match lookup_entry new_filename es1 with
                 | Some (File content) =>
                     match replace_python_version_in_content content
                             source_version target_version with
                     | Some content' => set_entry new_filename (File content') es1
                     | None => es1
                     end
                 | _ => es1
                 end
            else es1)
  end.

(** Every directory of the tree lists each name once, as a directory of
    a filesystem does. *)
Fixpoint unique_names (n : node) : bool :=
  match n with
  | File _ => true
  | Dir entries =>
      nodupb (map fst entries)
      && forallb (fun e => unique_names (snd e)) entries
  end.

(** The rewriting as a post-order recursion over the tree, with no paths:
    the subdirectories of a directory are rewritten where they are, in
    listing order, then its files are renamed and rewritten, then its
    subdirectories are renamed. *)
Fixpoint rewrite_post_order (source_version target_version : string) (n : node)
    : outcome node :=
  match n with
  | File _ => Done n
  | Dir entries =>
      es1 <- (fix children (es : list (string * node))
                : outcome (list (string * node)) :=
                match es with
                | [] => Done []
                | (name, c) :: es' =>
                    c' <- match c with
                          | Dir _ => rewrite_post_order source_version target_version c
                          | File _ => Done c
                          end ;;
                    es'' <- children es' ;;
                    Done ((name, c') :: es'')
                end) entries ;;
      es2 <- for_each (rename_in_dir source_version target_version true)
               (file_names entries) es1 ;;
      es3 <- for_each (rename_in_dir source_version target_version false)
               (dir_names entries) es2 ;;
      Done (Dir es3)
  end.

(** The inner recursion of [rewrite_post_order], by name. *)
Fixpoint rewrite_children (source_version target_version : string)
    (es : list (string * node)) : outcome (list (string * node)) :=
  match es with
  | [] => Done []
  | (name, c) :: es' =>
      c' <- match c with
            | Dir _ => rewrite_post_order source_version target_version c
            | File _ => Done c
            end ;;
      es'' <- rewrite_children source_version target_version es' ;;
      Done ((name, c') :: es'')
  end.

(** Stages of the work on one directory, used to follow the loops: the
    subdirectories already rewritten, and the entries named in [done]
    already renamed (and rewritten, if files). *)
Definition settle_child (source_version target_version : string)
    (e : string * node) : string * node :=
  (fst e, match snd e with
          | Dir _ => rewrite_tree source_version target_version (snd e)
          | File _ => snd e
          end).

Definition finish_file (rw : string -> string) (c : node) : node :=
  match c with
  | File content => File (rw content)
  | Dir _ => c
  end.

Definition renamed_part (rw : string -> string) (done : list string)
    (es : list (string * node)) : list (string * node) :=
  map (fun e => if in_list (fst e) done
                then (rw (fst e), finish_file rw (snd e))
                else e) es.

(* ================================================================== *)
(** ** LockRegenerator: [process_pipfiles] *)
(* ================================================================== *)

Section LockRegenerator.
(** Whatever [pipenv lock] reads and changes. *)
Variable W : Type.
(** [run_pipenv_lock(pipfile_path, target_version)] *)
Variable run_pipenv_lock : string -> string -> W -> bool * W.

Definition lock_state : Type := (list string * list string * W)%type.

Definition is_manifest (file_name : string) : bool :=
  startswith file_name "Pipfile" && negb (contains "lock" file_name).

Definition pipfile_step (target_version root : string)
    (st : lock_state) (file_name : string) : lock_state :=
  if is_manifest file_name then
    let '(success_processed, failed_processed, w) := st in
    let pipfile_path := os_path_join root file_name in
    let '(result, w') := run_pipenv_lock pipfile_path target_version w in
    if result
    then ((success_processed ++ [pipfile_path])%list, failed_processed, w')
    else (success_processed, (failed_processed ++ [pipfile_path])%list, w')
  else st.

Definition pipfile_body (target_version : string)
    (root : string) (dirs files : list string) (st : lock_state)
    : lock_state * bool :=
  (fold_left (pipfile_step target_version root) files st, false).

(** [process_pipfiles(path, target_version)]; [tree] is what the
    filesystem holds at [path]. *)
Definition process_pipfiles (path target_version : string) (tree : node) (w : W)
    : lock_state :=
  os_walk (pipfile_body target_version) path tree ([], [], w).

(** One call of the lock command per path of [targets], in order, each
    recorded as a success or a failure. *)
Definition lock_all (target_version : string) (targets : list string)
    (st : lock_state) : lock_state :=
  fold_left
    (fun st pipfile_path =>
       let '(success_processed, failed_processed, w) := st in
       let '(result, w') := run_pipenv_lock pipfile_path target_version w in
       if result
       then ((success_processed ++ [pipfile_path])%list, failed_processed, w')
       else (success_processed, (failed_processed ++ [pipfile_path])%list, w'))
    targets st.

(** The manifests below [path], in walk order. *)
Definition manifests_of (path : string) (tree : node) : list string :=
  flat_map
    (fun v => map (os_path_join (visit_root v)) (filter is_manifest (visit_files v)))
    (os_walk_trace (fun _ => false) path tree).
End LockRegenerator.

Arguments pipfile_step {W} run_pipenv_lock target_version root st file_name.
Arguments pipfile_body {W} run_pipenv_lock target_version root dirs files st.
Arguments process_pipfiles {W} run_pipenv_lock path target_version tree w.
Arguments lock_all {W} run_pipenv_lock target_version targets st.

(* ================================================================== *)
(** ** Orchestration: [process_paths] and [main] *)
(* ================================================================== *)

Record Args : Type := mk_args {
  context_dir : string;
  source : string;
  target : string;
  match_ : string;
  log_level : string
}.

Section Main.
(** The machine the script runs on. *)
Variable World : Type.
(** [platform.system() == "Linux"] *)
Variable platform_is_linux : World -> bool.
(** [shutil.which(name) is not None] *)
Variable which : string -> World -> bool.
(** The directory tree found at a path; [None] unless it is a directory. *)
Variable read_tree : string -> World -> option node.
Variable os_path_exists : string -> World -> bool.
Variable copytree : string -> string -> World -> bool * World.
(** [replace_version_in_directory] run on the filesystem of the world;
    [None] when it raises (an [os.rename] failed). *)
Variable rewrite_at : string -> string -> string -> World -> option World.
Variable run_pipenv_lock : string -> string -> World -> bool * World.

(** [check_requirements]: every check that fails ends the process with
    [sys.exit(1)]. *)
Definition check_requirements (args : Args) (w : World) : bool :=
  platform_is_linux w
  && check_python_version (source args)
  && check_python_version (target args)
  && check_input_versions_not_equal (source args) (target args)
  && which ("python" ++ target args) w
  && which "pipenv" w.

Definition scan (args : Args) (w : World) : list string :=
  match read_tree (context_dir args) w with
  | Some tree =>
      find_matching_paths (context_dir args) (source args) (match_ args) tree
  | None => []
  end.

Definition locks_at (path target_version : string) (w : World)
    : lock_state World :=
  match read_tree path w with
  | Some tree => process_pipfiles run_pipenv_lock path target_version tree w
  | None => ([], [], w)
  end.

(** One iteration of the loop of [process_paths]; [None] when
    [replace_version_in_directory] raised. *)
Definition process_step (source_version target_version : string)
    (acc : option (lock_state World)) (path : string)
    : option (lock_state World) :=
  match acc with
  | None => None
  | Some (success_processed, failed_processed, w) =>
      if negb (os_path_exists path w)
      then Some (success_processed, failed_processed, w)
      else
        match rewrite_at path source_version target_version w with
        | None => None
        | Some w1 =>
            let '(success, failed, w2) := locks_at path target_version w1 in
            Some ((success_processed ++ success)%list,
                  (failed_processed ++ failed)%list, w2)
        end
  end.

Definition process_paths (copied_paths : list string)
    (source_version target_version : string) (w : World)
    : option (lock_state World) :=
  fold_left (process_step source_version target_version) copied_paths
    (Some ([], [], w)).

Definition nonempty {A : Type} (l : list A) : bool :=
  (0 <? List.length l)%nat.

(** [main], from the parsed arguments on; the result is the exit status
    of the process.  An exception that nothing catches ends the
    interpreter with status 1. *)
Definition main (args : Args) (w : World) : nat :=
  if negb (check_requirements args w) then 1%nat
  else
    let paths := scan args w in
    let paths_dict :=
      replace_python_version_on_paths paths (source args) (target args) in
    if (List.length paths_dict =? 0)%nat then 1%nat
    else
      let '(success_copied_paths, failed_copied_paths, w1) :=
        copy_paths os_path_exists copytree paths_dict w in
      let exit_code := if nonempty failed_copied_paths then 1%nat else 0%nat in
      if nonempty success_copied_paths then
        match process_paths success_copied_paths (source args) (target args) w1 with
        | None => 1%nat
        | Some (_, failed_processed, _) =>
            if nonempty failed_processed then 1%nat else exit_code
        end
      else exit_code.
End Main.

Arguments check_requirements {World} platform_is_linux which args w.
Arguments scan {World} read_tree args w.
Arguments locks_at {World} read_tree run_pipenv_lock path target_version w.
Arguments process_step {World} read_tree os_path_exists rewrite_at run_pipenv_lock
  source_version target_version acc path.
Arguments process_paths {World} read_tree os_path_exists rewrite_at run_pipenv_lock
  copied_paths source_version target_version w.
Arguments main {World} platform_is_linux which read_tree os_path_exists copytree
  rewrite_at run_pipenv_lock args w.

(* ================================================================== *)
(** ** A small concrete machine *)
(* ================================================================== *)

(** One directory tree addressed by relative paths, and a list of
    manifests for which [pipenv lock] fails.  It serves to run the
    functions above on examples. *)
Module Machine.

Record world : Type := mk_world {
  cwd : node;
  failing_locks : list string
}.

(** The components of a relative path string. *)
Definition components (p : string) : tree_path :=
  filter (fun c => negb ((c =? "") || (c =? ".")))
    (match str_split p "/" with Some l => l | None => [] end).

Definition read_tree (p : string) (w : world) : option node :=
  match lookup (components p) (cwd w) with
  | Some (Dir es) => Some (Dir es)
  | _ => None
  end.

Definition os_path_exists (p : string) (w : world) : bool :=
  match lookup (components p) (cwd w) with
  | Some _ => true
  | None => false
  end.

(** The tree with [t] placed at [p], missing parents created. *)
Fixpoint place (p : tree_path) (t : node) (n : node) : option node :=
  match p with
  | [] => Some t
  | name :: p' =>
      match n with
      | Dir es =>
          match lookup_entry name es with
          | Some c =>
              match place p' t c with
              | Some c' => Some (Dir (set_entry name c' es))
              | None => None
              end
          | None =>
              match place p' t (Dir []) with
              | Some c' => Some (Dir (es ++ [(name, c')]))
              | None => None
              end
          end
      | File _ => None
      end
  end.

Definition copytree (src dst : string) (w : world) : bool * world :=
  match lookup (components src) (cwd w) with
  | Some (Dir es) =>
      match place (components dst) (Dir es) (cwd w) with
      | Some fs' => (true, mk_world fs' (failing_locks w))
      | None => (false, w)
      end
  | _ => (false, w)
  end.

Definition rewrite_at (p source_version target_version : string) (w : world)
    : option world :=
  match lookup (components p) (cwd w) with
  | Some t =>
      match replace_version_in_directory t source_version target_version with
      | Done t' => Some (mk_world (plug (components p) t' (cwd w)) (failing_locks w))
      | _ => None
      end
  | None => Some w
  end.

Definition run_pipenv_lock (pipfile_path target_version : string) (w : world)
    : bool * world :=
  (negb (in_list pipfile_path (failing_locks w)), w).

Definition run (args : Args) (w : world) : nat :=
  main (fun _ => true) (fun _ _ => true) read_tree os_path_exists
    copytree rewrite_at run_pipenv_lock args w.

End Machine.

(* ================================================================== *)
(** ** Further notions for stating properties *)
(* ================================================================== *)

(** The one-character string holding a line feed. *)
Definition newline : string := String "010"%char "".

(** Each source form keeps apart from the target form of the same shape. *)
Definition sources_apart_from_targets (source_version target_version : string) : bool :=
  forallb (fun p => apart (fst p) (snd p))
    (combine (version_forms source_version) (version_forms target_version)).

(** No name and no file content of the tree holds a form of [version]. *)
Fixpoint tree_free_of_forms (version : string) (n : node) : bool :=
  match n with
  | File content => free_of_forms version content
  | Dir entries =>
      forallb (fun e => free_of_forms version (fst e)
                        && tree_free_of_forms version (snd e)) entries
  end.

(** No entry name of the tree starts with the path separator. *)
Fixpoint relative_names (n : node) : bool :=
  match n with
  | File _ => true
  | Dir entries =>
      forallb (fun e => negb (startswith (fst e) "/") && relative_names (snd e))
        entries
  end.

(** The path string [os.walk] builds for the components [p] below [top]. *)
Definition path_string (top : string) (p : tree_path) : string :=
  fold_left os_path_join p top.

(* ================================================================== *)
(** ** Proof automation *)
(* ================================================================== *)

Ltac split_andb :=
  repeat match goal with
  | H : _ && _ = true |- _ => apply andb_true_iff in H; destruct H
  | H : negb _ = true |- _ => apply negb_true_iff in H
  | H : true = true |- _ => clear H
  end.

(* ================================================================== *)
(** * Properties *)
(* ================================================================== *)

(** ** Strings *)

Lemma sapp_nil_r (s : string) : s ++ "" = s.
Proof. induction s; simpl; congruence. Qed.

Lemma sapp_assoc (a b c : string) : (a ++ b) ++ c = a ++ b ++ c.
Proof. induction a; simpl; congruence. Qed.

Lemma slength_app (a b : string) :
  String.length (a ++ b) = String.length a + String.length b.
Proof. induction a; simpl; congruence. Qed.

Lemma sapp_inv_head (a x y : string) : a ++ x = a ++ y -> x = y.
Proof. induction a; simpl; intros H; [assumption | injection H; auto]. Qed.

Lemma startswith_nil (s : string) : startswith s "" = true.
Proof. destruct s; reflexivity. Qed.

Lemma startswith_app (p r : string) : startswith (p ++ r) p = true.
Proof.
  induction p as [|c p IH]; simpl.
  - apply startswith_nil.
  - now rewrite Ascii.eqb_refl, IH.
Qed.

Lemma startswith_inv (s p : string) :
  startswith s p = true -> exists r, s = p ++ r.
Proof.
  revert s; induction p as [|c p IH]; intros s H.
  - exists s; reflexivity.
  - destruct s as [|d s]; simpl in H; [discriminate|].
    apply andb_true_iff in H as [Hc Hs].
    apply Ascii.eqb_eq in Hc; subst d.
    destruct (IH _ Hs) as [r ->]. exists r; reflexivity.
Qed.

Lemma startswith_iff (s p : string) :
  startswith s p = true <-> exists r, s = p ++ r.
Proof.
  split; [apply startswith_inv | intros [r ->]; apply startswith_app].
Qed.

Lemma startswith_app_l (x w a : string) :
  startswith x a = true -> startswith (x ++ w) a = true.
Proof.
  intros H; apply startswith_inv in H as [r ->].
  rewrite sapp_assoc; apply startswith_app.
Qed.

(** A prefix of [x ++ w] is a prefix of [x], or runs over the end of [x]. *)
Lemma startswith_app_cases (x w a : string) :
  startswith (x ++ w) a = true ->
  startswith x a = true \/
  exists a', a' <> "" /\ a = x ++ a' /\ startswith w a' = true.
Proof.
  revert a; induction x as [|c x IH]; intros a H; simpl in H.
  - destruct a as [|d a]; [left; reflexivity|].
    right; exists (String d a); repeat split; [discriminate | assumption].
  - destruct a as [|d a]; [left; reflexivity|].
    simpl in H. apply andb_true_iff in H as [Hc Hs].
    destruct (IH _ Hs) as [Hx | (a' & Hne & -> & Hw)].
    + left; simpl; now rewrite Hc, Hx.
    + right; exists a'; repeat split; try assumption.
      apply Ascii.eqb_eq in Hc; now subst.
Qed.

Lemma contains_cons (sub : string) (c : ascii) (s : string) :
  contains sub (String c s) = startswith (String c s) sub || contains sub s.
Proof. reflexivity. Qed.

Lemma contains_nil (sub : string) : contains sub "" = startswith "" sub.
Proof. cbn [contains]. apply orb_false_r. Qed.

Lemma contains_startswith (sub s : string) :
  startswith s sub = true -> contains sub s = true.
Proof.
  intros H; destruct s; [rewrite contains_nil | rewrite contains_cons, H]; auto.
Qed.

Lemma contains_app_r (sub u v : string) :
  contains sub v = true -> contains sub (u ++ v) = true.
Proof.
  intros H; induction u as [|c u IH]; [assumption|].
  change (String c u ++ v) with (String c (u ++ v)).
  rewrite contains_cons, IH. apply orb_true_r.
Qed.

Lemma contains_app_l (sub u v : string) :
  contains sub u = true -> contains sub (u ++ v) = true.
Proof.
  induction u as [|c u IH]; intros H.
  - rewrite contains_nil in H.
    apply contains_startswith. now apply (startswith_app_l "" v sub).
  - change (String c u ++ v) with (String c (u ++ v)).
    rewrite contains_cons in *.
    apply orb_true_iff in H as [H|H].
    + pose proof (startswith_app_l (String c u) v sub H) as H'.
      cbn [append] in H'. now rewrite H'.
    + rewrite (IH H). apply orb_true_r.
Qed.

Lemma contains_iff (sub s : string) :
  contains sub s = true <-> exists u v, s = u ++ sub ++ v.
Proof.
  split.
  - induction s as [|c s IH]; intros H.
    + rewrite contains_nil in H.
      apply startswith_inv in H as [r Hr]. exists "", r.
      destruct sub; [|discriminate]. destruct r; [reflexivity | discriminate].
    + rewrite contains_cons in H. apply orb_true_iff in H as [H|H].
      * apply startswith_inv in H as [r ->]. now exists "", r.
      * destruct (IH H) as (u & v & ->). now exists (String c u), v.
  - intros (u & v & ->).
    apply contains_app_r, contains_startswith, startswith_app.
Qed.

Lemma contains_length (sub s : string) :
  contains sub s = true -> String.length sub <= String.length s.
Proof.
  intros H; apply contains_iff in H as (u & v & ->).
  rewrite !slength_app; lia.
Qed.

(** ** [str.replace] with a non-empty pattern *)

Lemma replace_from_skip (old new w x : string) :
  replace_from old new (String.length w) (w ++ x) = replace_from old new 0 x.
Proof. induction w as [|c w IH]; simpl; [destruct x|]; auto. Qed.

Lemma str_replace_nonempty (s old new : string) :
  old <> "" -> str_replace s old new = replace_from old new 0 s.
Proof. destruct old; [congruence | reflexivity]. Qed.

Lemma str_replace_nil (old new : string) :
  old <> "" -> str_replace "" old new = "".
Proof. intros H; now rewrite str_replace_nonempty. Qed.

Lemma str_replace_hit (old new x : string) :
  old <> "" -> str_replace (old ++ x) old new = new ++ str_replace x old new.
Proof.
  intros H. rewrite !str_replace_nonempty by assumption.
  destruct old as [|c old]; [congruence|].
  change (String c old ++ x) with (String c (old ++ x)).
  cbn [replace_from].
  change (String c (old ++ x)) with (String c old ++ x).
  rewrite startswith_app.
  replace (String.length (String c old) - 1) with (String.length old)
    by (cbn [String.length]; lia).
  now rewrite replace_from_skip.
Qed.

Lemma str_replace_miss (old new : string) (c : ascii) (x : string) :
  old <> "" -> startswith (String c x) old = false ->
  str_replace (String c x) old new = String c (str_replace x old new).
Proof.
  intros H Hs. rewrite !str_replace_nonempty by assumption.
  cbn [replace_from]. now rewrite Hs.
Qed.

(** Induction along the scan of [str.replace]. *)
Lemma replace_scan_ind (old : string) (Hne : old <> "") (P : string -> Prop) :
  P "" ->
  (forall x, P x -> P (old ++ x)) ->
  (forall c x, startswith (String c x) old = false -> P x -> P (String c x)) ->
  forall s, P s.
Proof.
  intros H0 Hhit Hmiss s.
  remember (String.length s) as n eqn:Hn.
  revert s Hn. induction n as [n IH] using lt_wf_ind. intros s Hn.
  destruct s as [|c s]; [assumption|].
  destruct (startswith (String c s) old) eqn:E.
  - apply startswith_inv in E as [r Hr]. rewrite Hr. apply Hhit.
    apply (IH (String.length r)); [|reflexivity].
    subst n. rewrite Hr, slength_app.
    destruct old; [congruence | simpl; lia].
  - apply Hmiss; [assumption|]. apply (IH (String.length s)); [|reflexivity].
    subst n; simpl; lia.
Qed.

(** ** Patterns that keep apart *)

Lemma suffix_meets_prefix_false (p q : string) :
  suffix_meets_prefix p q = false ->
  forall p1 p2, p = p1 ++ p2 -> p2 <> "" -> startswith q p2 = false.
Proof.
  intros H p1; revert p H.
  induction p1 as [|c p1 IH]; intros p H p2 -> Hne.
  - destruct p2 as [|c p2]; [congruence|].
    cbn [append suffix_meets_prefix] in H.
    now apply orb_false_iff in H.
  - cbn [append suffix_meets_prefix] in H.
    apply orb_false_iff in H as [_ H].
    now apply (IH _ H).
Qed.

Lemma suffix_meets_prefix_tail (c : ascii) (p q : string) :
  suffix_meets_prefix (String c p) q = false -> suffix_meets_prefix p q = false.
Proof. cbn [suffix_meets_prefix]. intros H. now apply orb_false_iff in H. Qed.

Lemma contains_false_tail (sub : string) (c : ascii) (s : string) :
  contains sub (String c s) = false ->
  startswith (String c s) sub = false /\ contains sub s = false.
Proof. rewrite contains_cons. apply orb_false_iff. Qed.

Lemma contains_false_suffix (sub u v : string) :
  contains sub (u ++ v) = false -> contains sub v = false.
Proof.
  intros H. destruct (contains sub v) eqn:E; [|reflexivity].
  now rewrite (contains_app_r sub u v E) in H.
Qed.

Lemma contains_false_at (sub s : string) :
  contains sub s = false ->
  forall s1 s2, s = s1 ++ s2 -> startswith s2 sub = false.
Proof.
  intros H s1 s2 ->. apply contains_false_suffix in H.
  destruct (startswith s2 sub) eqn:E; [|reflexivity].
  now rewrite (contains_startswith _ _ E) in H.
Qed.

(** The scan for [a] walks over a block [d] that [a] cannot touch. *)
Lemma str_replace_pass (a b d w : string) :
  a <> "" ->
  suffix_meets_prefix d a = false -> contains a d = false ->
  str_replace (d ++ w) a b = d ++ str_replace w a b.
Proof.
  intros Ha. induction d as [|h d IH]; intros Hsp Hin; [reflexivity|].
  cbn [append].
  rewrite str_replace_miss; [| assumption |].
  - rewrite IH; [reflexivity | now apply suffix_meets_prefix_tail in Hsp |].
    now apply contains_false_tail in Hin.
  - destruct (startswith (String h (d ++ w)) a) eqn:E; [|reflexivity].
    exfalso.
    apply (startswith_app_cases (String h d) w a) in E as [E | (a' & _ & -> & _)].
    + apply contains_startswith in E. congruence.
    + cbn [suffix_meets_prefix] in Hsp. apply orb_false_iff in Hsp as [Hsp _].
      now rewrite (startswith_app (String h d) a') in Hsp.
Qed.

(** Replacing [c] by [d] creates no occurrence of [a] that starts before
    the replaced text, as long as [a] can neither end inside [d] nor
    contain it. *)
Lemma str_replace_no_new_prefix (a c d : string) :
  c <> "" ->
  (forall a1 a2, a = a1 ++ a2 -> a1 <> "" -> a2 <> "" -> startswith d a2 = false) ->
  (forall a1 a2, a = a1 ++ a2 -> a1 <> "" -> startswith a2 d = false) ->
  forall x w, w <> "" ->
    startswith (w ++ x) a = false ->
    startswith (w ++ str_replace x c d) a = false.
Proof.
  intros Hc Hend Hin x.
  induction x as [| x IH | h x Hmiss IH] using (replace_scan_ind c Hc);
    intros w Hw Hx.
  - now rewrite str_replace_nil.
  - rewrite str_replace_hit by assumption.
    destruct (startswith (w ++ d ++ str_replace x c d) a) eqn:E; [|reflexivity].
    exfalso.
    apply startswith_app_cases in E as [E | (a' & Ha' & -> & E)].
    + now rewrite (startswith_app_l w (c ++ x) a E) in Hx.
    + apply startswith_app_cases in E as [E | (a'' & _ & -> & _)].
      * now rewrite (Hend w a' eq_refl Hw Ha') in E.
      * specialize (Hin w (d ++ a'') eq_refl Hw).
        now rewrite startswith_app in Hin.
  - rewrite str_replace_miss by assumption.
    replace (w ++ String h (str_replace x c d))
      with ((w ++ String h "") ++ str_replace x c d)
      by (now rewrite sapp_assoc).
    apply IH.
    + destruct w; discriminate.
    + now rewrite sapp_assoc.
Qed.

Lemma apart_sym (p q : string) : apart p q = apart q p.
Proof.
  unfold apart.
  destruct (suffix_meets_prefix p q), (suffix_meets_prefix q p),
    (contains p q), (contains q p); reflexivity.
Qed.

Lemma apart_inv (p q : string) :
  apart p q = true ->
  suffix_meets_prefix p q = false /\ suffix_meets_prefix q p = false /\
  contains p q = false /\ contains q p = false.
Proof.
  unfold apart. rewrite !andb_true_iff, !negb_true_iff. tauto.
Qed.

Lemma apart_no_new_prefix (a c d : string) :
  c <> "" -> apart a d = true ->
  forall (h : ascii) x,
    startswith (String h x) a = false ->
    startswith (String h (str_replace x c d)) a = false.
Proof.
  intros Hc Had h x Hx.
  apply apart_inv in Had as (Hsp & _ & _ & Hin).
  apply (str_replace_no_new_prefix a c d Hc) with (w := String h "");
    try assumption; try discriminate.
  - intros a1 a2 E _ Hne. now apply (suffix_meets_prefix_false a d Hsp a1 a2).
  - intros a1 a2 E _. now apply (contains_false_at d a Hin a1 a2).
Qed.

(** Two replacements whose patterns and results keep apart commute. *)
Lemma str_replace_comm (a b c d : string) :
  a <> "" -> c <> "" ->
  apart a c = true -> apart a d = true -> apart b c = true ->
  forall x,
    str_replace (str_replace x c d) a b = str_replace (str_replace x a b) c d.
Proof.
  intros Ha Hc Hac Had Hbc x.
  remember (String.length x) as n eqn:Hn. revert x Hn.
  induction n as [n IH] using lt_wf_ind. intros x Hn.
  destruct (apart_inv _ _ Hac) as (Hac1 & Hac2 & Hac3 & Hac4).
  destruct (apart_inv _ _ Had) as (Had1 & Had2 & Had3 & Had4).
  destruct (apart_inv _ _ Hbc) as (Hbc1 & Hbc2 & Hbc3 & Hbc4).
  destruct x as [|h x]; [now rewrite !str_replace_nil|].
  destruct (startswith (String h x) c) eqn:Ec.
  { apply startswith_inv in Ec as [r Hr]. rewrite Hr.
    rewrite (str_replace_hit c d r Hc).
    rewrite (str_replace_pass a b d _ Ha Had2 Had3).
    rewrite (str_replace_pass a b c _ Ha Hac2 Hac3).
    rewrite (str_replace_hit c d _ Hc).
    f_equal. apply (IH (String.length r)); [|reflexivity].
    subst n. rewrite Hr, slength_app. destruct c; [congruence | simpl; lia]. }
  destruct (startswith (String h x) a) eqn:Ea.
  { apply startswith_inv in Ea as [r Hr]. rewrite Hr.
    rewrite (str_replace_hit a b r Ha).
    rewrite (str_replace_pass c d a _ Hc Hac1 Hac4).
    rewrite (str_replace_pass c d b _ Hc Hbc1 Hbc4).
    rewrite (str_replace_hit a b _ Ha).
    f_equal. apply (IH (String.length r)); [|reflexivity].
    subst n. rewrite Hr, slength_app. destruct a; [congruence | simpl; lia]. }
  rewrite (str_replace_miss c d h x Hc Ec).
  rewrite (str_replace_miss a b h x Ha Ea).
  rewrite (str_replace_miss a b h _ Ha (apart_no_new_prefix a c d Hc Had h x Ea)).
  rewrite apart_sym in Hbc.
  rewrite (str_replace_miss c d h _ Hc (apart_no_new_prefix c a b Ha Hbc h x Ec)).
  f_equal. apply (IH (String.length x)); [|reflexivity].
  subst n; simpl; lia.
Qed.

Lemma unbordered_inv (t : string) :
  unbordered t = true ->
  forall t1 t2, t = t1 ++ t2 -> t1 <> "" -> t2 <> "" -> startswith t t2 = false.
Proof.
  intros H t1 t2 E H1 H2.
  destruct t as [|c t]; [destruct t1; [congruence | discriminate]|].
  cbn [unbordered] in H. apply negb_true_iff in H.
  destruct t1 as [|c1 t1]; [congruence|].
  cbn [append] in E. injection E as _ E.
  now apply (suffix_meets_prefix_false t (String c t) H t1 t2).
Qed.

(** Replacing [s] by [t] and then [t] by [s] gives the text back when the
    text holds no [t] to begin with and occurrences of [t] cannot overlap. *)
Lemma str_replace_undo (s t : string) :
  s <> "" -> t <> "" -> unbordered t = true ->
  forall x, contains t x = false ->
    str_replace (str_replace x s t) t s = x.
Proof.
  intros Hs Ht Hu x.
  induction x as [| x IH | h x Hmiss IH] using (replace_scan_ind s Hs);
    intros Hx.
  - now rewrite !str_replace_nil.
  - rewrite str_replace_hit, str_replace_hit by assumption.
    f_equal. apply IH. now apply contains_false_suffix in Hx.
  - apply contains_false_tail in Hx as [Hx1 Hx2].
    rewrite str_replace_miss by assumption.
    rewrite str_replace_miss; [now rewrite IH | assumption |].
    apply (str_replace_no_new_prefix t s t Hs) with (w := String h "");
      try assumption; try discriminate.
    + intros t1 t2 E H1 H2. now apply (unbordered_inv t Hu t1 t2).
    + intros t1 t2 E H1.
      destruct (startswith t2 t) eqn:E2; [|reflexivity].
      apply startswith_inv in E2 as [r ->].
      apply (f_equal String.length) in E. rewrite !slength_app in E.
      destruct t1; [congruence | simpl in E; lia].
Qed.

(** ** Version strings *)

Lemma split_from_no_sep (sep : ascii) (cur s : string) :
  has_char sep s = false ->
  split_from (String sep "") 0 cur s = [cur ++ s].
Proof.
  revert cur; induction s as [|c s IH]; intros cur H.
  - now rewrite sapp_nil_r.
  - cbn [has_char] in H. apply orb_false_iff in H as [Hc Hs].
    cbn [split_from startswith]. rewrite Hc. cbn [andb].
    rewrite (IH _ Hs), sapp_assoc. reflexivity.
Qed.

Lemma split_from_one_sep (sep : ascii) (cur a b : string) :
  has_char sep a = false -> has_char sep b = false ->
  split_from (String sep "") 0 cur (a ++ String sep b) = [cur ++ a; b].
Proof.
  revert cur; induction a as [|c a IH]; intros cur Ha Hb.
  - cbn [append split_from startswith]. rewrite Ascii.eqb_refl.
    cbn [andb String.length Nat.sub].
    rewrite (startswith_nil b), sapp_nil_r.
    now rewrite (split_from_no_sep sep "" b Hb).
  - cbn [has_char] in Ha. apply orb_false_iff in Ha as [Hc Ha].
    cbn [append split_from startswith]. rewrite Hc. cbn [andb].
    rewrite (IH _ Ha Hb), sapp_assoc. reflexivity.
Qed.

Lemma all_digits_has_char (c : ascii) (s : string) :
  is_digit c = false -> all_digits s = true -> has_char c s = false.
Proof.
  intros Hc. induction s as [|d s IH]; intros H; [reflexivity|].
  cbn [all_digits] in H. apply andb_true_iff in H as [Hd Hs].
  cbn [has_char]. rewrite (IH Hs), orb_false_r.
  destruct (Ascii.eqb c d) eqn:E; [|reflexivity].
  apply Ascii.eqb_eq in E; congruence.
Qed.

Lemma is_number_inv (s : string) :
  is_number s = true -> s <> "" /\ all_digits s = true.
Proof.
  unfold is_number. rewrite andb_true_iff, negb_true_iff.
  intros [H1 H2]. split; [|assumption]. now apply String.eqb_neq in H1.
Qed.

Lemma extract_python_version_valid (a b : string) :
  is_number a = true -> is_number b = true ->
  extract_python_version (a ++ "." ++ b) = [a; b].
Proof.
  intros Ha Hb. apply is_number_inv in Ha as [_ Ha], Hb as [_ Hb].
  unfold extract_python_version, str_split.
  change (a ++ "." ++ b) with (a ++ String "." b).
  rewrite split_from_one_sep; [reflexivity | |];
    now apply all_digits_has_char.
Qed.

Lemma version_forms_valid (a b : string) :
  is_number a = true -> is_number b = true ->
  version_forms (a ++ "." ++ b) =
  [a ++ "." ++ b; a ++ "-" ++ b; "python-" ++ a ++ b; "py" ++ a ++ b].
Proof.
  intros Ha Hb. unfold version_forms.
  now rewrite extract_python_version_valid.
Qed.

Lemma match_digits_then_number (k : string -> bool) (seen : bool) (a rest : string) :
  all_digits a = true -> (seen = true \/ a <> "") ->
  (forall c r, rest = String c r -> is_digit c = false) ->
  match_digits_then k seen (a ++ rest) = k rest.
Proof.
  revert seen; induction a as [|c a IH]; intros seen Ha Hseen Hrest.
  - destruct Hseen as [-> | ?]; [|congruence].
    destruct rest as [|c r]; [reflexivity|].
    cbn [append match_digits_then]. now rewrite (Hrest c r eq_refl).
  - cbn [all_digits] in Ha. apply andb_true_iff in Ha as [Hc Ha].
    cbn [append match_digits_then]. rewrite Hc.
    apply IH; auto.
Qed.

(** Every [a.b] with numeric components passes [check_python_version]. *)
Lemma check_python_version_valid (a b : string) :
  is_number a = true -> is_number b = true ->
  check_python_version (a ++ "." ++ b) = true.
Proof.
  intros Ha Hb. apply is_number_inv in Ha as [Ha1 Ha2], Hb as [Hb1 Hb2].
  unfold check_python_version.
  rewrite match_digits_then_number; try assumption; [| now right |].
  - cbn [append].
    rewrite <- (sapp_nil_r b).
    rewrite match_digits_then_number; try assumption; [reflexivity | now right |].
    intros c r E; discriminate.
  - intros c r E. cbn [append] in E. now injection E as <- _.
Qed.

(** ** VersionToken: the four substitutions *)

(** With numeric components both versions unpack, and the rewriting is the
    four substitutions in their fixed order. *)
Lemma rewrite_unfolds (a b c d content : string) :
  is_number a = true -> is_number b = true ->
  is_number c = true -> is_number d = true ->
  replace_python_version_in_content content (a ++ "." ++ b) (c ++ "." ++ d) =
  Some (apply_patterns
          [(a ++ "." ++ b, c ++ "." ++ d);
           (a ++ "-" ++ b, c ++ "-" ++ d);
           ("python-" ++ a ++ b, "python-" ++ c ++ d);
           ("py" ++ a ++ b, "py" ++ c ++ d)]
          content).
Proof.
  intros Ha Hb Hc Hd. unfold replace_python_version_in_content.
  rewrite (extract_python_version_valid a b Ha Hb).
  rewrite (extract_python_version_valid c d Hc Hd).
  reflexivity.
Qed.

(** C3.  For a source [a.b] and a target [c.d] with numeric components the
    rewriting is exactly the fixed sequence of the four substitutions
    [a.b -> c.d], [a-b -> c-d], [python-ab -> python-cd], [pyab -> pycd],
    whatever the number of digits of the components. *)
Theorem rewrite_is_four_substitutions (a b c d content : string) :
  is_number a = true -> is_number b = true ->
  is_number c = true -> is_number d = true ->
  replace_python_version_in_content content (a ++ "." ++ b) (c ++ "." ++ d) =
  Some (apply_patterns
          [(a ++ "." ++ b, c ++ "." ++ d);
           (a ++ "-" ++ b, c ++ "-" ++ d);
           ("python-" ++ a ++ b, "python-" ++ c ++ d);
           ("py" ++ a ++ b, "py" ++ c ++ d)]
          content).
Proof. exact (rewrite_unfolds a b c d content). Qed.

Lemma rewrite_is_four_substitutions_310 :
  replace_python_version_in_content "python-310 py310 3-10 3.10" "3.10" "3.11" =
  Some (apply_patterns
          [("3.10", "3.11"); ("3-10", "3-11");
           ("python-310", "python-311"); ("py310", "py311")]
          "python-310 py310 3-10 3.10").
Proof.
  apply (rewrite_is_four_substitutions "3" "10" "3" "11"); reflexivity.
Defined.

Example version_forms_310 :
  version_forms "3.10" = ["3.10"; "3-10"; "python-310"; "py310"].
Proof. reflexivity. Qed.

(** ** VersionToken: round trips *)

Lemma form_nonempty_l (x y z : string) : x <> "" -> x ++ y ++ z <> "".
Proof. destruct x; [congruence | discriminate]. Qed.

Lemma rewrite_round_trip_valid (a b c d text : string) :
  is_number a = true -> is_number b = true ->
  is_number c = true -> is_number d = true ->
  forms_independent (a ++ "." ++ b) (c ++ "." ++ d) = true ->
  free_of_forms (c ++ "." ++ d) text = true ->
  rewrite_there_and_back text (a ++ "." ++ b) (c ++ "." ++ d) = Some text.
Proof.
  intros Ha Hb Hc Hd Hind Hfree.
  unfold rewrite_there_and_back.
  rewrite (rewrite_unfolds a b c d text Ha Hb Hc Hd).
  rewrite (rewrite_unfolds c d a b _ Hc Hd Ha Hb).
  unfold forms_independent, free_of_forms in *.
  rewrite (version_forms_valid a b Ha Hb) in Hind.
  rewrite (version_forms_valid c d Hc Hd) in Hind, Hfree.
  cbn [shapes_apart forallb] in Hind, Hfree.
  apply is_number_inv in Ha as [Ha _], Hc as [Hc _].
  assert (N1 : a ++ "." ++ b <> "") by now apply form_nonempty_l.
  assert (N2 : a ++ "-" ++ b <> "") by now apply form_nonempty_l.
  assert (N3 : "python-" ++ a ++ b <> "") by discriminate.
  assert (N4 : "py" ++ a ++ b <> "") by discriminate.
  assert (M1 : c ++ "." ++ d <> "") by now apply form_nonempty_l.
  assert (M2 : c ++ "-" ++ d <> "") by now apply form_nonempty_l.
  assert (M3 : "python-" ++ c ++ d <> "") by discriminate.
  assert (M4 : "py" ++ c ++ d <> "") by discriminate.
  split_andb.
  cbn [apply_patterns fold_left fst snd].
  rewrite (str_replace_comm (c ++ "." ++ d) (a ++ "." ++ b)
             ("py" ++ a ++ b) ("py" ++ c ++ d)) by assumption.
  rewrite (str_replace_comm (c ++ "." ++ d) (a ++ "." ++ b)
             ("python-" ++ a ++ b) ("python-" ++ c ++ d)) by assumption.
  rewrite (str_replace_comm (c ++ "." ++ d) (a ++ "." ++ b)
             (a ++ "-" ++ b) (c ++ "-" ++ d)) by assumption.
  rewrite (str_replace_undo (a ++ "." ++ b) (c ++ "." ++ d)) by assumption.
  rewrite (str_replace_comm (c ++ "-" ++ d) (a ++ "-" ++ b)
             ("py" ++ a ++ b) ("py" ++ c ++ d)) by assumption.
  rewrite (str_replace_comm (c ++ "-" ++ d) (a ++ "-" ++ b)
             ("python-" ++ a ++ b) ("python-" ++ c ++ d)) by assumption.
  rewrite (str_replace_undo (a ++ "-" ++ b) (c ++ "-" ++ d)) by assumption.
  rewrite (str_replace_comm ("python-" ++ c ++ d) ("python-" ++ a ++ b)
             ("py" ++ a ++ b) ("py" ++ c ++ d)) by assumption.
  rewrite (str_replace_undo ("python-" ++ a ++ b) ("python-" ++ c ++ d))
    by assumption.
  rewrite (str_replace_undo ("py" ++ a ++ b) ("py" ++ c ++ d)) by assumption.
  reflexivity.
Qed.

(** C4, as amended.  For a source [a.b] and a target [c.d] whose forms
    keep out of each other's way, a text that holds none of the four
    target forms is restored exactly by rewriting there and back.  When the
    target [3.1] lies inside the source [3.11], the text [3.1] is not
    restored. *)
Theorem rewrite_round_trip :
  (forall a b c d text,
      is_number a = true -> is_number b = true ->
      is_number c = true -> is_number d = true ->
      forms_independent (a ++ "." ++ b) (c ++ "." ++ d) = true ->
      free_of_forms (c ++ "." ++ d) text = true ->
      rewrite_there_and_back text (a ++ "." ++ b) (c ++ "." ++ d) = Some text)
  /\ rewrite_there_and_back "3.1" "3.11" "3.1" = Some "3.11".
Proof.
  split; [exact rewrite_round_trip_valid | reflexivity].
Qed.

Lemma rewrite_round_trip_38_311 :
  rewrite_there_and_back
    "FROM python:3.8 # py38, python-38, ubi9-python-3-8" "3.8" "3.11"
  = Some "FROM python:3.8 # py38, python-38, ubi9-python-3-8".
Proof.
  apply (proj1 rewrite_round_trip "3" "8" "3" "11"); reflexivity.
Defined.

(** The round trip of C4 as the claim states it fails on a text that
    already holds the target version. *)
Lemma round_trip_fails_on_target_text :
  contains "3.8" "3.11" = false /\ contains "3.11" "3.8" = false /\
  check_python_version "3.8" = true /\ check_python_version "3.11" = true /\
  rewrite_there_and_back "python3.11" "3.8" "3.11" <> Some "python3.11".
Proof. repeat split. discriminate. Qed.

(** ** PathMapper *)

Lemma in_list_iff (x : string) (l : list string) :
  in_list x l = true <-> In x l.
Proof.
  unfold in_list. rewrite existsb_exists. split.
  - intros (y & Hy & E). apply String.eqb_eq in E. now subst.
  - intros H. exists x. split; [assumption | apply String.eqb_refl].
Qed.

Lemma in_list_false_iff (x : string) (l : list string) :
  in_list x l = false <-> ~ In x l.
Proof.
  rewrite <- in_list_iff. destruct (in_list x l); split; congruence.
Qed.

Lemma dict_set_map (g : string -> string) (seen : list string) (k : string) :
  dict_set (map (fun p => (p, g p)) seen) k (g k) =
  map (fun p => (p, g p)) (if in_list k seen then seen else seen ++ [k])%list.
Proof.
  induction seen as [|x seen IH]; [reflexivity|].
  cbn [map dict_set in_list existsb]. fold (in_list k seen).
  rewrite (String.eqb_sym k x).
  destruct (x =? k) eqn:E.
  - apply String.eqb_eq in E. subst. reflexivity.
  - cbn [orb]. rewrite IH. now destruct (in_list k seen).
Qed.

Lemma on_paths_from (g : string -> string) (paths seen : list string) :
  fold_left (fun d p => dict_set d p (g p)) paths (map (fun p => (p, g p)) seen) =
  map (fun p => (p, g p))
    (fold_left (fun seen x => if in_list x seen then seen else seen ++ [x])%list
       paths seen).
Proof.
  revert seen; induction paths as [|p paths IH]; intros seen; [reflexivity|].
  cbn [fold_left]. rewrite dict_set_map. apply IH.
Qed.

Lemma on_paths_distinct (paths_list : list string) (sv tv : string) :
  replace_python_version_on_paths paths_list sv tv =
  map (fun p => (p, str_replace p sv tv)) (distinct paths_list).
Proof.
  unfold replace_python_version_on_paths, distinct.
  apply (on_paths_from (fun p => str_replace p sv tv) paths_list []).
Qed.

(** C1, as amended.  The mapping has one entry per distinct candidate, in
    order of first appearance, and the destination is the candidate with
    the occurrences of the dotted source version replaced by the dotted
    target version; no other form of the version is touched. *)
Theorem replace_python_version_on_paths_spec
    (paths_list : list string) (source_version target_version : string) :
  replace_python_version_on_paths paths_list source_version target_version =
  map (fun p => (p, str_replace p source_version target_version))
    (distinct paths_list).
Proof. apply on_paths_distinct. Qed.

Lemma distinct_from_NoDup (l seen : list string) :
  NoDup (seen ++ l) ->
  fold_left (fun seen x => if in_list x seen then seen else seen ++ [x])%list l seen
  = (seen ++ l)%list.
Proof.
  revert seen; induction l as [|x l IH]; intros seen H.
  - now rewrite app_nil_r.
  - cbn [fold_left].
    assert (Hx : in_list x seen = false).
    { apply in_list_false_iff. intros Hin.
      apply NoDup_remove_2 in H. apply H. apply in_or_app. now left. }
    rewrite Hx.
    replace (seen ++ x :: l)%list with ((seen ++ [x]) ++ l)%list in *
      by (now rewrite <- app_assoc).
    now apply IH.
Qed.

Lemma distinct_NoDup (l : list string) : NoDup l -> distinct l = l.
Proof. intros H. now apply (distinct_from_NoDup l []). Qed.

(** The destination of a path in a bare-form directory keeps the source
    version, whereas the content rewriting would change it: C1 as the
    claim states it does not hold. *)
Lemma on_paths_leaves_bare_form :
  exists p d,
    In (p, d) (replace_python_version_on_paths
                 ["runtimes/py39/ubi9-python-3.9"] "3.9" "3.11") /\
    replace_python_version_in_content p "3.9" "3.11" <> Some d.
Proof.
  exists "runtimes/py39/ubi9-python-3.9", "runtimes/py39/ubi9-python-3.11".
  split; [now left | discriminate].
Qed.

(** ** Directory trees *)

Lemma node_ind' (P : node -> Prop) :
  (forall content, P (File content)) ->
  (forall entries, Forall (fun e => P (snd e)) entries -> P (Dir entries)) ->
  forall n, P n.
Proof.
  intros HF HD. fix IH 1. intros [content | entries]; [apply HF|].
  apply HD. induction entries as [|[name sub] entries IHes]; constructor.
  - apply IH.
  - apply IHes.
Qed.

(** [os.walk] with a loop body is the fold of the body over the yielded
    triples, whenever the body empties [dirs] exactly where [prune] says. *)
Lemma os_walk_fold {St : Type}
    (body : string -> list string -> list string -> St -> St * bool)
    (prune : string -> bool) :
  (forall root dirs files st, snd (body root dirs files st) = prune root) ->
  forall n top st,
    os_walk body top n st =
    fold_left
      (fun st v => fst (body (visit_root v) (visit_dirs v) (visit_files v) st))
      (os_walk_trace prune top n) st.
Proof.
  intros Hprune n. induction n as [content | entries IH] using node_ind';
    intros top st; [reflexivity|].
  cbn [os_walk os_walk_trace fold_left].
  unfold visit_root, visit_dirs, visit_files. cbn [fst snd].
  specialize (Hprune top (dir_names entries) (file_names entries) st).
  destruct (body top (dir_names entries) (file_names entries) st) as [st1 pruned].
  cbn [fst snd] in *. subst pruned.
  destruct (prune top); [reflexivity|].
  generalize st1. clear st.
  induction IH as [|[name sub] es Hsub _ IHes]; intros st; [reflexivity|].
  rewrite fold_left_app. cbn [snd] in Hsub.
  rewrite <- IHes. rewrite <- Hsub.
  destruct sub; reflexivity.
Qed.

(** Every yielded directory other than [top] is listed in the [dirs] of a
    yielded directory that was not pruned. *)
Lemma os_walk_trace_parent (prune : string -> bool) (n : node) :
  forall top v,
    In v (os_walk_trace prune top n) ->
    visit_root v = top \/
    exists u name,
      In u (os_walk_trace prune top n) /\ In name (visit_dirs u) /\
      visit_root v = os_path_join (visit_root u) name /\
      prune (visit_root u) = false.
Proof.
  induction n as [content | entries IH] using node_ind'; intros top v Hv;
    [contradiction|].
  cbn [os_walk_trace] in Hv |- *.
  destruct Hv as [<- | Hv]; [now left|]. right.
  destruct (prune top) eqn:Ep; [contradiction|].
  set (here := (top, dir_names entries, file_names entries)) in *.
  assert (Hsub : exists name sub,
             In (name, sub) entries /\
             In v (os_walk_trace prune (os_path_join top name) sub) /\
             forall u, In u (os_walk_trace prune (os_path_join top name) sub) ->
                       In u ((fix trace_entries (es : list (string * node)) :=
                                match es with
                                | [] => []
                                | (name, sub) :: es' =>
                                    (os_walk_trace prune (os_path_join top name) sub
                                       ++ trace_entries es')%list
                                end) entries)).
  { clear IH here. induction entries as [|[name sub] es IHes]; [contradiction|].
    apply in_app_or in Hv as [Hv | Hv].
    - exists name, sub. split; [now left|]. split; [assumption|].
      intros u Hu. apply in_or_app. now left.
    - destruct (IHes Hv) as (name' & sub' & Hin & Hv' & Hall).
      exists name', sub'. split; [now right|]. split; [assumption|].
      intros u Hu. apply in_or_app. right. now apply Hall. }
  destruct Hsub as (name & sub & Hin & Hv' & Hall).
  rewrite Forall_forall in IH. specialize (IH _ Hin). cbn [snd] in IH.
  destruct (IH _ _ Hv') as [Hroot | (u & name' & Hu & Hname & Hroot & Hpr)].
  - exists here, name. split; [now left|]. split; [|split; assumption].
    unfold here, visit_dirs, dir_names. cbn [fst snd].
    apply in_map_iff. exists (name, sub). split; [reflexivity|].
    apply filter_In. split; [assumption|].
    destruct sub; [contradiction | reflexivity].
  - exists u, name'. split; [right; now apply Hall|]. now repeat split.
Qed.

(** ** PathScanner *)

Lemma find_body_prune (sv m root : string) (dirs files : list string)
    (st : find_state) :
  snd (find_body sv m root dirs files st) = find_prune sv m root.
Proof.
  unfold find_body, find_prune.
  destruct (is_blocked root); [reflexivity|].
  now destruct (contains sv root && contains m root).
Qed.

Lemma find_matching_paths_fold (ctx sv m : string) (tree : node) :
  find_matching_paths ctx sv m tree =
  filter (contains sv)
    (matching_paths
       (fold_left (find_step sv m) (find_visits ctx sv m tree)
          (mk_find_state [] []))).
Proof.
  unfold find_matching_paths, find_visits.
  now rewrite (os_walk_fold (find_body sv m) (find_prune sv m)
                 (find_body_prune sv m)).
Qed.

Lemma find_step_cases (sv m : string) (st : find_state) (v : visit) :
  (find_step sv m st v = st /\
   (qualifies sv m v = false \/ In (visit_root v) (processed_dirs st))) \/
  (find_step sv m st v =
     mk_find_state (matching_paths st ++ [visit_root v])
       (visit_root v :: processed_dirs st) /\
   qualifies sv m v = true /\ ~ In (visit_root v) (processed_dirs st)).
Proof.
  unfold find_step, find_body, qualifies.
  destruct (is_blocked (visit_root v)); cbn [negb andb fst]; [left; auto|].
  destruct (contains sv (visit_root v)); cbn [andb fst]; [|left; auto].
  destruct (contains m (visit_root v)); cbn [andb fst]; [|left; auto].
  destruct (in_list "Dockerfile" (visit_files v)); cbn [andb fst]; [|left; auto].
  destruct (in_list (visit_root v) (processed_dirs st)) eqn:E; cbn [negb fst].
  - left. split; [reflexivity|]. right. now apply in_list_iff.
  - right. repeat split. now apply in_list_false_iff.
Qed.

Lemma find_step_inv (sv m : string) (st : find_state) (v : visit) :
  find_inv st -> find_inv (find_step sv m st v).
Proof.
  intros [Hnd Hsame].
  destruct (find_step_cases sv m st v) as [[-> _] | (-> & _ & Hnew)];
    [now split|].
  split; cbn [matching_paths processed_dirs].
  - apply NoDup_app; [assumption | constructor; [intros [] | constructor] |].
    intros x Hx [<- | []]. apply Hnew. now apply Hsame.
  - intros p. rewrite in_app_iff. cbn [In]. rewrite Hsame. tauto.
Qed.

Lemma find_fold_inv (sv m : string) (l : list visit) (st : find_state) :
  find_inv st -> find_inv (fold_left (find_step sv m) l st).
Proof.
  revert st; induction l as [|v l IH]; intros st H; [assumption|].
  cbn [fold_left]. apply IH. now apply find_step_inv.
Qed.

Lemma find_fold_sound (sv m : string) (l : list visit) (st : find_state) (p : string) :
  In p (matching_paths (fold_left (find_step sv m) l st)) ->
  In p (matching_paths st) \/
  exists v, In v l /\ visit_root v = p /\ qualifies sv m v = true.
Proof.
  revert st; induction l as [|v l IH]; intros st H; [now left|].
  cbn [fold_left] in H. apply IH in H as [H | (u & Hu & Hr & Hq)].
  - destruct (find_step_cases sv m st v) as [[E _] | (E & Hq & _)];
      rewrite E in H; [now left|].
    cbn [matching_paths] in H. apply in_app_or in H as [H | [<- | []]];
      [now left|].
    right. exists v. repeat split; [now left | assumption].
  - right. exists u. repeat split; [now right | assumption | assumption].
Qed.

Lemma find_fold_mono (sv m : string) (l : list visit) (st : find_state) (p : string) :
  In p (matching_paths st) ->
  In p (matching_paths (fold_left (find_step sv m) l st)).
Proof.
  revert st; induction l as [|v l IH]; intros st H; [assumption|].
  cbn [fold_left]. apply IH.
  destruct (find_step_cases sv m st v) as [[-> _] | (-> & _ & _)];
    [assumption|].
  cbn [matching_paths]. apply in_or_app. now left.
Qed.

Lemma find_fold_complete (sv m : string) (l : list visit) (st : find_state) (v : visit) :
  find_inv st -> In v l -> qualifies sv m v = true ->
  In (visit_root v) (matching_paths (fold_left (find_step sv m) l st)).
Proof.
  revert st; induction l as [|u l IH]; intros st Hinv Hv Hq; [contradiction|].
  cbn [fold_left]. destruct Hv as [-> | Hv].
  - apply find_fold_mono.
    destruct (find_step_cases sv m st v) as [[-> [Hc | Hc]] | (-> & _ & _)].
    + congruence.
    + now apply Hinv.
    + cbn [matching_paths]. apply in_or_app. right. now left.
  - apply IH; [now apply find_step_inv | assumption | assumption].
Qed.

Lemma find_inv_init : find_inv (mk_find_state [] []).
Proof. split; [constructor | intros p; reflexivity]. Qed.

Lemma qualifies_inv (sv m : string) (v : visit) :
  qualifies sv m v = true ->
  is_blocked (visit_root v) = false /\
  contains sv (visit_root v) = true /\ contains m (visit_root v) = true /\
  In "Dockerfile" (visit_files v).
Proof.
  unfold qualifies. rewrite !andb_true_iff, negb_true_iff, in_list_iff. tauto.
Qed.

(** The result is exactly the set of roots of the qualifying visits. *)
Lemma find_matching_paths_iff (ctx sv m : string) (tree : node) (p : string) :
  In p (find_matching_paths ctx sv m tree) <->
  exists v, In v (find_visits ctx sv m tree) /\ visit_root v = p /\
            qualifies sv m v = true.
Proof.
  rewrite find_matching_paths_fold, filter_In. split.
  - intros [H _]. apply find_fold_sound in H as [[] | H]. exact H.
  - intros (v & Hv & <- & Hq). split.
    + apply find_fold_complete; [apply find_inv_init | assumption | assumption].
    + now apply qualifies_inv in Hq.
Qed.

Lemma find_matching_paths_NoDup (ctx sv m : string) (tree : node) :
  NoDup (find_matching_paths ctx sv m tree).
Proof.
  rewrite find_matching_paths_fold. apply NoDup_filter.
  apply (find_fold_inv sv m _ _ find_inv_init).
Qed.

Lemma find_visits_parent (ctx sv m : string) (tree : node) (v : visit) :
  In v (find_visits ctx sv m tree) ->
  visit_root v = ctx \/
  exists u name,
    In u (find_visits ctx sv m tree) /\ In name (visit_dirs u) /\
    visit_root v = os_path_join (visit_root u) name /\
    is_blocked (visit_root u) = false /\
    contains sv (visit_root u) && contains m (visit_root u) = false.
Proof.
  intros Hv. apply os_walk_trace_parent in Hv as [H | (u & name & Hu & Hn & Hr & Hp)];
    [now left|].
  right. exists u, name. unfold find_prune in Hp.
  apply orb_false_iff in Hp as [Hp1 Hp2]. now repeat split.
Qed.

(** C7.  The result has no duplicates; every returned path contains the
    source version and the match token and was yielded by the walk with a
    [Dockerfile] among its files; a path whose every visit lacks the
    [Dockerfile] is not returned. *)
Theorem find_matching_paths_sound (ctx sv m : string) (tree : node) :
  NoDup (find_matching_paths ctx sv m tree) /\
  (forall p, In p (find_matching_paths ctx sv m tree) ->
     contains sv p = true /\ contains m p = true /\
     exists v, In v (find_visits ctx sv m tree) /\ visit_root v = p /\
               In "Dockerfile" (visit_files v)) /\
  (forall p,
     (forall v, In v (find_visits ctx sv m tree) -> visit_root v = p ->
                ~ In "Dockerfile" (visit_files v)) ->
     ~ In p (find_matching_paths ctx sv m tree)).
Proof.
  split; [apply find_matching_paths_NoDup|]. split.
  - intros p Hp. apply find_matching_paths_iff in Hp as (v & Hv & <- & Hq).
    apply qualifies_inv in Hq as (_ & Hs & Hm & Hd).
    repeat split; try assumption. now exists v.
  - intros p Hno Hp. apply find_matching_paths_iff in Hp as (v & Hv & Hr & Hq).
    apply qualifies_inv in Hq as (_ & _ & _ & Hd).
    exact (Hno v Hv Hr Hd).
Qed.

Lemma find_matching_paths_sound_example :
  contains "3.9" "./jupyter/minimal-3.9" = true /\
  contains "minimal" "./jupyter/minimal-3.9" = true /\
  exists v,
    In v (find_visits "." "3.9" "minimal"
            (Dir [("jupyter",
                   Dir [("minimal-3.9", Dir [("Dockerfile", File "FROM python:3.9")]);
                        ("minimal-3.9-draft", Dir [("README.md", File "")])])])) /\
    visit_root v = "./jupyter/minimal-3.9" /\ In "Dockerfile" (visit_files v).
Proof.
  apply (proj1 (proj2 (find_matching_paths_sound "." "3.9" "minimal" _))).
  vm_compute. now left.
Defined.

Lemma beneath_dot_blocked (name p : string) :
  In name excluded_names -> beneath "." name p = true -> is_blocked p = true.
Proof.
  intros Hn Hp. unfold is_blocked. apply existsb_exists.
  exists (os_path_join "." name). split.
  - unfold blocklist. now apply in_map.
  - unfold beneath in Hp. apply orb_true_iff in Hp as [Hp | Hp].
    + apply String.eqb_eq in Hp. subst p.
      apply contains_startswith. rewrite <- (sapp_nil_r (os_path_join "." name)) at 1.
      apply startswith_app.
    + apply contains_startswith. apply startswith_inv in Hp as [r ->].
      rewrite sapp_assoc. apply startswith_app.
Qed.

(** C2, as amended.  No returned path contains an entry of the blocklist
    ([./.git], [./.github], [./ci], [./docs], [./manifests], [./scripts],
    [./tests]) as a substring; the walk reaches a directory other than the
    scan root only as an entry of a visited directory whose path contains
    no such entry, so everything beneath a blocked directory is pruned; and
    when the scan root is [.], each of the seven excluded directories of
    the root and everything below it is blocked. *)
Theorem find_prunes_blocked (ctx sv m : string) (tree : node) :
  (forall p, In p (find_matching_paths ctx sv m tree) -> is_blocked p = false) /\
  (forall v, In v (find_visits ctx sv m tree) ->
     visit_root v = ctx \/
     exists u name,
       In u (find_visits ctx sv m tree) /\ In name (visit_dirs u) /\
       visit_root v = os_path_join (visit_root u) name /\
       is_blocked (visit_root u) = false) /\
  (forall name p, In name excluded_names -> beneath "." name p = true ->
     is_blocked p = true).
Proof.
  split; [|split].
  - intros p Hp. apply find_matching_paths_iff in Hp as (v & _ & <- & Hq).
    now apply qualifies_inv in Hq.
  - intros v Hv.
    destruct (find_visits_parent ctx sv m tree v Hv)
      as [H | (u & name & Hu & Hn & Hr & Hb & _)]; [now left|].
    right. now exists u, name.
  - apply beneath_dot_blocked.
Qed.

Lemma find_prunes_blocked_example :
  is_blocked "./jupyter/minimal-3.9" = false.
Proof.
  apply (proj1 (find_prunes_blocked "." "3.9" "minimal"
                  (Dir [("tests", Dir [("minimal-3.9", Dir [("Dockerfile", File "")])]);
                        ("jupyter", Dir [("minimal-3.9", Dir [("Dockerfile", File "")])])]))).
  vm_compute. tauto.
Defined.

Example find_skips_tests_dir :
  find_matching_paths "." "3.9" "minimal"
    (Dir [("tests", Dir [("minimal-3.9", Dir [("Dockerfile", File "")])]);
          ("jupyter", Dir [("minimal-3.9", Dir [("Dockerfile", File "")])])])
  = ["./jupyter/minimal-3.9"].
Proof. reflexivity. Qed.

(** With a scan root other than [.] the directory [ci] of the root is
    walked like any other, and a candidate in it is returned: C2 as the
    claim states it does not hold. *)
Lemma find_enters_excluded_dir :
  In "ci" excluded_names /\
  beneath "repo" "ci" "repo/ci/minimal-3.9" = true /\
  find_matching_paths "repo" "3.9" "minimal"
    (Dir [("ci", Dir [("minimal-3.9", Dir [("Dockerfile", File "FROM python:3.9")])])])
  = ["repo/ci/minimal-3.9"].
Proof. repeat split. vm_compute. tauto. Qed.



(** ** LockRegenerator *)

Section LockFacts.
Variable W : Type.
Variable run_pipenv_lock : string -> string -> W -> bool * W.

Lemma pipfile_steps (tv root : string) (files : list string) (st : lock_state W) :
  fold_left (pipfile_step run_pipenv_lock tv root) files st =
  lock_all run_pipenv_lock tv
    (map (os_path_join root) (filter is_manifest files)) st.
Proof.
  revert st; induction files as [|f files IH]; intros st; [reflexivity|].
  cbn [fold_left filter]. rewrite IH. unfold pipfile_step.
  destruct (is_manifest f); [|reflexivity].
  unfold lock_all. cbn [map fold_left].
  destruct st as [[s fl] w]. reflexivity.
Qed.

Lemma lock_all_app (tv : string) (l1 l2 : list string) (st : lock_state W) :
  lock_all run_pipenv_lock tv (l1 ++ l2) st =
  lock_all run_pipenv_lock tv l2 (lock_all run_pipenv_lock tv l1 st).
Proof. unfold lock_all. apply fold_left_app. Qed.

Lemma process_pipfiles_lock_all (path tv : string) (tree : node) (w : W) :
  process_pipfiles run_pipenv_lock path tv tree w =
  lock_all run_pipenv_lock tv (manifests_of path tree) ([], [], w).
Proof.
  unfold process_pipfiles, manifests_of.
  rewrite (os_walk_fold (pipfile_body run_pipenv_lock tv) (fun _ => false))
    by reflexivity.
  generalize (os_walk_trace (fun _ => false) path tree).
  generalize (@nil string, @nil string, w).
  intros st l; revert st.
  induction l as [|v l IH]; intros st; [reflexivity|].
  cbn [fold_left flat_map]. rewrite lock_all_app, IH.
  unfold pipfile_body. cbn [fst]. now rewrite pipfile_steps.
Qed.

Lemma lock_all_partition (tv : string) (targets : list string) (st : lock_state W) :
  Permutation
    (fst (fst (lock_all run_pipenv_lock tv targets st)) ++
     snd (fst (lock_all run_pipenv_lock tv targets st)))
    ((fst (fst st) ++ snd (fst st)) ++ targets).
Proof.
  revert st; induction targets as [|p targets IH]; intros [[s f] w].
  - cbn. now rewrite app_nil_r.
  - unfold lock_all in *. cbn [fold_left].
    destruct (run_pipenv_lock p tv w) as [[|] w'];
      rewrite IH; cbn [fst snd].
    + rewrite <- !app_assoc. apply Permutation_app_head.
      cbn [app]. apply Permutation_middle.
    + rewrite <- !app_assoc. reflexivity.
Qed.
End LockFacts.

Lemma manifests_of_iff (path : string) (tree : node) (p : string) :
  In p (manifests_of path tree) <->
  exists v name,
    In v (os_walk_trace (fun _ => false) path tree) /\
    In name (visit_files v) /\ p = os_path_join (visit_root v) name /\
    startswith name "Pipfile" = true /\ contains "lock" name = false.
Proof.
  unfold manifests_of. rewrite in_flat_map. split.
  - intros (v & Hv & Hp). apply in_map_iff in Hp as (name & <- & Hn).
    apply filter_In in Hn as [Hn Hm]. unfold is_manifest in Hm.
    apply andb_true_iff in Hm as [H1 H2]. apply negb_true_iff in H2.
    now exists v, name.
  - intros (v & name & Hv & Hn & -> & H1 & H2). exists v. split; [assumption|].
    apply in_map. apply filter_In. split; [assumption|].
    unfold is_manifest. now rewrite H1, H2.
Qed.

(** C8.  [process_pipfiles] calls the lock command once for each file of
    the subtree whose name starts with [Pipfile] and does not contain
    [lock], in walk order, and for nothing else; each call is recorded as
    a success or a failure; for [a/Pipfile] and [a/Pipfile.lock] the only
    target is [a/Pipfile]. *)
Theorem process_pipfiles_targets :
  (forall (W : Type) (run_pipenv_lock : string -> string -> W -> bool * W)
          (path tv : string) (tree : node) (w : W),
     process_pipfiles run_pipenv_lock path tv tree w =
     lock_all run_pipenv_lock tv (manifests_of path tree) ([], [], w) /\
     Permutation
       (fst (fst (process_pipfiles run_pipenv_lock path tv tree w)) ++
        snd (fst (process_pipfiles run_pipenv_lock path tv tree w)))
       (manifests_of path tree)) /\
  (forall path tree p,
     In p (manifests_of path tree) <->
     exists v name,
       In v (os_walk_trace (fun _ => false) path tree) /\
       In name (visit_files v) /\ p = os_path_join (visit_root v) name /\
       startswith name "Pipfile" = true /\ contains "lock" name = false) /\
  manifests_of "a" (Dir [("Pipfile", File ""); ("Pipfile.lock", File "")])
  = ["a/Pipfile"].
Proof.
  split; [|split].
  - intros W run path tv tree w. split.
    + apply process_pipfiles_lock_all.
    + rewrite process_pipfiles_lock_all.
      apply (lock_all_partition W run tv (manifests_of path tree) ([], [], w)).
  - apply manifests_of_iff.
  - reflexivity.
Qed.

Lemma process_pipfiles_targets_example :
  In "a/Pipfile"
    (manifests_of "a" (Dir [("Pipfile", File ""); ("Pipfile.lock", File "")])).
Proof.
  apply (proj2 (proj1 (proj2 process_pipfiles_targets) "a"
                  (Dir [("Pipfile", File ""); ("Pipfile.lock", File "")])
                  "a/Pipfile")).
  exists ("a", [], ["Pipfile"; "Pipfile.lock"]), "Pipfile".
  vm_compute. tauto.
Defined.

(** ** TreeCopier *)

Section CopyFacts.
Variable FS : Type.
Variable os_path_exists : string -> FS -> bool.
Variable copytree : string -> string -> FS -> bool * FS.

Lemma copy_loop_cons (item : string * string) (items : dict)
    (acc : copy_state FS) :
  copy_loop os_path_exists copytree (item :: items) acc =
  copy_loop os_path_exists copytree items
    (copy_step os_path_exists copytree acc item).
Proof. reflexivity. Qed.

(** What one iteration does to the three components. *)
Lemma copy_step_from (s f : list string) (fs : FS) (item : string * string) :
  copy_step os_path_exists copytree (s, f, fs) item =
  ((s ++ success_of (copy_step os_path_exists copytree ([], [], fs) item))%list,
   (f ++ failed_of (copy_step os_path_exists copytree ([], [], fs) item))%list,
   fs_of (copy_step os_path_exists copytree ([], [], fs) item)).
Proof.
  destruct item as [src dst]. unfold copy_step.
  destruct (os_path_exists dst fs); [|destruct (copytree src dst fs) as [[|] fs']];
    unfold success_of, failed_of, fs_of; cbn [fst snd app];
    now rewrite ?app_nil_r.
Qed.

(** The lists collected so far only get longer; what the loop does next
    depends on the filesystem alone. *)
Lemma copy_loop_from (items : dict) (s f : list string) (fs : FS) :
  copy_loop os_path_exists copytree items (s, f, fs) =
  ((s ++ success_of (copy_loop os_path_exists copytree items ([], [], fs)))%list,
   (f ++ failed_of (copy_loop os_path_exists copytree items ([], [], fs)))%list,
   fs_of (copy_loop os_path_exists copytree items ([], [], fs))).
Proof.
  revert s f fs; induction items as [|item items IH]; intros s f fs.
  - cbn. now rewrite !app_nil_r.
  - rewrite !copy_loop_cons. rewrite (copy_step_from s f fs item).
    destruct (copy_step os_path_exists copytree ([], [], fs) item)
      as [[s1 f1] fs1].
    unfold success_of, failed_of, fs_of. cbn [fst snd].
    rewrite (IH (s ++ s1)%list (f ++ f1)%list fs1), (IH s1 f1 fs1).
    unfold success_of, failed_of, fs_of. cbn [fst snd].
    now rewrite !app_assoc.
Qed.

Lemma copy_paths_app (pre post : dict) (fs : FS) :
  copy_paths os_path_exists copytree (pre ++ post)%list fs =
  copy_loop os_path_exists copytree post
    (copy_paths os_path_exists copytree pre fs).
Proof. unfold copy_paths, copy_loop. apply fold_left_app. Qed.

Lemma copy_paths_all_exist (paths_dict : dict) (fs : FS) :
  (forall src dst, In (src, dst) paths_dict -> os_path_exists dst fs = true) ->
  copy_paths os_path_exists copytree paths_dict fs =
  ([], map snd paths_dict, fs).
Proof.
  unfold copy_paths. intros H.
  induction paths_dict as [|[src dst] items IH]; [reflexivity|].
  rewrite copy_loop_cons. unfold copy_step.
  rewrite (H src dst (or_introl eq_refl)).
  rewrite copy_loop_from, IH; [reflexivity|].
  intros src' dst' Hin. apply (H src' dst'). now right.
Qed.


(** C5.  An entry whose destination exists when the loop reaches it is
    recorded as failed and nothing is copied for it: the filesystem and
    the list of successes end up as if the entry were not in the
    mapping.  When every destination exists, the filesystem is returned
    as it was and every destination is recorded as failed. *)
Theorem copy_paths_keeps_existing :
  (forall (pre post : dict) (src dst : string) (fs : FS),
     os_path_exists dst (fs_of (copy_paths os_path_exists copytree pre fs)) = true ->
     In dst (failed_of (copy_paths os_path_exists copytree
                          (pre ++ (src, dst) :: post)%list fs)) /\
     fs_of (copy_paths os_path_exists copytree (pre ++ (src, dst) :: post)%list fs) =
       fs_of (copy_paths os_path_exists copytree (pre ++ post)%list fs) /\
     success_of (copy_paths os_path_exists copytree (pre ++ (src, dst) :: post)%list fs) =
       success_of (copy_paths os_path_exists copytree (pre ++ post)%list fs)) /\
  (forall (paths_dict : dict) (fs : FS),
     (forall src dst, In (src, dst) paths_dict -> os_path_exists dst fs = true) ->
     copy_paths os_path_exists copytree paths_dict fs =
     ([], map snd paths_dict, fs)).
Proof.
  split; [|apply copy_paths_all_exist].
  intros pre post src dst fs Hex.
  rewrite !copy_paths_app.
  destruct (copy_paths os_path_exists copytree pre fs) as [[s1 f1] fs1].
  unfold fs_of in Hex. cbn [snd] in Hex.
  rewrite copy_loop_cons. unfold copy_step. rewrite Hex.
  rewrite (copy_loop_from post s1 (f1 ++ [dst])%list fs1).
  rewrite (copy_loop_from post s1 f1 fs1).
  unfold failed_of, fs_of, success_of. cbn [fst snd].
  repeat split. apply in_or_app. left. apply in_or_app. right. now left.
Qed.
End CopyFacts.

Lemma copy_paths_keeps_existing_example :
  let fs :=
    Machine.mk_world
      (Dir [("minimal-3.9", Dir [("Dockerfile", File "FROM python:3.9")]);
            ("minimal-3.11", Dir [("Dockerfile", File "FROM python:3.11")])])
      [] in
  let r :=
    copy_paths Machine.os_path_exists Machine.copytree
      ([] ++ ("./minimal-3.9", "./minimal-3.11") :: [])%list fs in
  let r' := copy_paths Machine.os_path_exists Machine.copytree ([] ++ [])%list fs in
  In "./minimal-3.11" (failed_of r) /\ fs_of r = fs_of r' /\
  success_of r = success_of r'.
Proof.
  apply (proj1 (copy_paths_keeps_existing Machine.world Machine.os_path_exists
                  Machine.copytree)).
  reflexivity.
Defined.

(** ** Exit status *)

Section MainFacts.
Variable World : Type.
Variable platform_is_linux : World -> bool.
Variable which : string -> World -> bool.
Variable read_tree : string -> World -> option node.
Variable os_path_exists : string -> World -> bool.
Variable copytree : string -> string -> World -> bool * World.
Variable rewrite_at : string -> string -> string -> World -> option World.
Variable run_pipenv_lock : string -> string -> World -> bool * World.





End MainFacts.



(** ** Paths in a tree *)

Lemma lookup_entry_set (name : string) (c : node) (es : list (string * node)) :
  lookup_entry name es <> None ->
  lookup_entry name (set_entry name c es) = Some c.
Proof.
  induction es as [|[n c0] es IH]; cbn [lookup_entry set_entry]; [congruence|].
  destruct (n =? name) eqn:E; cbn [lookup_entry]; rewrite E; auto.
Qed.

Lemma set_entry_set (name : string) (c c' : node) (es : list (string * node)) :
  set_entry name c (set_entry name c' es) = set_entry name c es.
Proof.
  induction es as [|[n c0] es IH]; cbn [set_entry]; [reflexivity|].
  destruct (n =? name) eqn:E; cbn [set_entry]; rewrite E; congruence.
Qed.

Lemma lookup_app (p q : tree_path) (fs : node) :
  lookup (p ++ q)%list fs =
  match lookup p fs with
  | Some t => lookup q t
  | None => None
  end.
Proof.
  revert fs; induction p as [|name p IH]; intros fs; [reflexivity|].
  cbn [app lookup]. destruct fs as [|es]; [reflexivity|].
  destruct (lookup_entry name es); [apply IH | reflexivity].
Qed.

Lemma lookup_plug (p : tree_path) (t : node) (fs : node) :
  lookup p fs <> None -> lookup p (plug p t fs) = Some t.
Proof.
  revert fs; induction p as [|name p IH]; intros fs H; [reflexivity|].
  cbn [lookup plug] in *. destruct fs as [|es]; [congruence|].
  destruct (lookup_entry name es) as [c|] eqn:E; [|congruence].
  cbn [lookup]. rewrite lookup_entry_set by congruence. now apply IH.
Qed.

Lemma plug_plug (p : tree_path) (t t' : node) (fs : node) :
  plug p t (plug p t' fs) = plug p t fs.
Proof.
  revert fs; induction p as [|name p IH]; intros fs; [reflexivity|].
  cbn [plug]. destruct fs as [|es]; [reflexivity|].
  destruct (lookup_entry name es) as [c|] eqn:E; cbn [plug]; [|now rewrite E].
  rewrite lookup_entry_set by congruence.
  now rewrite set_entry_set, IH.
Qed.

Lemma plug_app (p q : tree_path) (t s : node) (fs : node) :
  lookup p fs = Some s ->
  plug (p ++ q)%list t fs = plug p (plug q t s) fs.
Proof.
  revert fs; induction p as [|name p IH]; intros fs H.
  - cbn in H. now injection H as ->.
  - cbn [app lookup plug] in *. destruct fs as [|es]; [discriminate|].
    destruct (lookup_entry name es) as [c|]; [|discriminate].
    now rewrite (IH c H).
Qed.

(** Reading and writing below a directory that has just been put in place. *)
Lemma lookup_child (top : tree_path) (name : string) (es : list (string * node))
    (fs : node) :
  lookup top fs <> None ->
  lookup (top ++ [name])%list (plug top (Dir es) fs) = lookup_entry name es.
Proof.
  intros H. rewrite lookup_app, (lookup_plug top (Dir es) fs H).
  cbn [lookup]. now destruct (lookup_entry name es).
Qed.

Lemma plug_child (top : tree_path) (name : string) (c : node)
    (es : list (string * node)) (fs : node) :
  lookup top fs <> None -> lookup_entry name es <> None ->
  plug (top ++ [name])%list c (plug top (Dir es) fs) =
  plug top (Dir (set_entry name c es)) fs.
Proof.
  intros H Hn.
  rewrite (plug_app top [name] c (Dir es)) by now apply lookup_plug.
  rewrite plug_plug. cbn [plug].
  destruct (lookup_entry name es); [reflexivity | congruence].
Qed.

(** ** Entries of one directory *)

Lemma lookup_entry_app (name : string) (l1 l2 : list (string * node)) :
  ~ In name (map fst l1) ->
  lookup_entry name (l1 ++ l2) = lookup_entry name l2.
Proof.
  induction l1 as [|[n c] l1 IH]; intros H; [reflexivity|].
  cbn [app lookup_entry]. cbn [map fst In] in H.
  destruct (n =? name) eqn:E.
  - apply String.eqb_eq in E. tauto.
  - apply IH. tauto.
Qed.

Lemma lookup_entry_None (name : string) (l : list (string * node)) :
  ~ In name (map fst l) -> lookup_entry name l = None.
Proof.
  intros H. rewrite <- (app_nil_r l). now rewrite lookup_entry_app.
Qed.

Lemma lookup_entry_here (name : string) (c : node) (l : list (string * node)) :
  lookup_entry name ((name, c) :: l) = Some c.
Proof. cbn [lookup_entry]. now rewrite String.eqb_refl. Qed.

Lemma rename_key_app (old new : string) (c : node) (l1 l2 : list (string * node)) :
  ~ In old (map fst l1) ->
  rename_key old new (l1 ++ (old, c) :: l2) = (l1 ++ (new, c) :: l2)%list.
Proof.
  induction l1 as [|[n c1] l1 IH]; intros H.
  - cbn [app rename_key]. now rewrite String.eqb_refl.
  - cbn [app rename_key]. cbn [map fst In] in H.
    destruct (n =? old) eqn:E.
    + apply String.eqb_eq in E. tauto.
    + rewrite IH; [reflexivity | tauto].
Qed.

Lemma set_entry_app (name : string) (c c' : node) (l1 l2 : list (string * node)) :
  ~ In name (map fst l1) ->
  set_entry name c' (l1 ++ (name, c) :: l2) = (l1 ++ (name, c') :: l2)%list.
Proof.
  induction l1 as [|[n c1] l1 IH]; intros H.
  - cbn [app set_entry]. now rewrite String.eqb_refl.
  - cbn [app set_entry]. cbn [map fst In] in H.
    destruct (n =? name) eqn:E.
    + apply String.eqb_eq in E. tauto.
    + rewrite IH; [reflexivity | tauto].
Qed.

(** ** TreeRewriter: from paths to entries *)

Lemma in_file_lift (top : tree_path) (name sv tv : string)
    (es : list (string * node)) (fs : node) :
  lookup top fs <> None ->
  replace_python_version_in_file (top ++ [name])%list sv tv (plug top (Dir es) fs) =
  plug top
    (Dir match lookup_entry name es with
         | Some (File content) =>
             match replace_python_version_in_content content sv tv with
             | Some content' => set_entry name (File content') es
             | None => es
             end
         | _ => es
         end) fs.
Proof.
  intros H. unfold replace_python_version_in_file.
  rewrite (lookup_child top name es fs H).
  destruct (lookup_entry name es) as [[content|sub]|] eqn:E; try reflexivity.
  destruct (replace_python_version_in_content content sv tv); [|reflexivity].
  apply plug_child; congruence.
Qed.

Lemma rename_lift (top : tree_path) (name sv tv : string) (is_file : bool)
    (es : list (string * node)) (fs : node) :
  lookup top fs <> None ->
  rename_file_and_replace_python_version top name sv tv is_file
    (plug top (Dir es) fs) =
  (es' <- rename_in_dir sv tv is_file name es ;; Done (plug top (Dir es') fs)).
Proof.
  intros H. unfold rename_file_and_replace_python_version, rename_in_dir.
  destruct (replace_python_version_in_content name sv tv) as [new|];
    [|reflexivity].
  destruct (name =? new).
  - cbn [bind]. destruct is_file; [|reflexivity].
    now rewrite in_file_lift.
  - unfold os_rename. rewrite (lookup_plug top (Dir es) fs H).
    destruct (rename_entry name new es) as [es'|]; [|reflexivity].
    cbn [bind]. rewrite plug_plug. destruct is_file; [|reflexivity].
    now rewrite in_file_lift.
Qed.

Lemma for_each_rename_lift (top : tree_path) (sv tv : string) (is_file : bool)
    (names : list string) (es : list (string * node)) (fs : node) :
  lookup top fs <> None ->
  for_each
    (fun name fs =>
       rename_file_and_replace_python_version top name sv tv is_file fs)
    names (plug top (Dir es) fs) =
  (es' <- for_each (rename_in_dir sv tv is_file) names es ;;
   Done (plug top (Dir es') fs)).
Proof.
  intros H. revert es; induction names as [|name names IH]; intros es;
    [reflexivity|].
  cbn [for_each]. rewrite (rename_lift top name sv tv is_file es fs H).
  destruct (rename_in_dir sv tv is_file name es) as [es'| |]; cbn [bind];
    [apply IH | reflexivity | reflexivity].
Qed.

Lemma rewrite_body_lift (top : tree_path) (sv tv : string) (dirs files : list string)
    (es : list (string * node)) (fs : node) :
  lookup top fs <> None ->
  rewrite_body sv tv top dirs files (plug top (Dir es) fs) =
  (es1 <- for_each (rename_in_dir sv tv true) files es ;;
   es2 <- for_each (rename_in_dir sv tv false) dirs es1 ;;
   Done (plug top (Dir es2) fs)).
Proof.
  intros H. unfold rewrite_body.
  rewrite (for_each_rename_lift top sv tv true files es fs H).
  destruct (for_each (rename_in_dir sv tv true) files es) as [es1| |];
    cbn [bind]; [|reflexivity|reflexivity].
  apply (for_each_rename_lift top sv tv false dirs es1 fs H).
Qed.

(** ** TreeRewriter: renaming inside one directory *)

Lemma nodupb_iff (l : list string) : nodupb l = true <-> NoDup l.
Proof.
  induction l as [|x l IH]; cbn [nodupb].
  - split; [constructor | reflexivity].
  - rewrite andb_true_iff, negb_true_iff, in_list_false_iff, IH.
    split; [intros [H1 H2]; now constructor | intros H; now inversion H].
Qed.

Lemma NoDup_map_inj {A B : Type} (f : A -> B) (l : list A) (x y : A) :
  NoDup (map f l) -> In x l -> In y l -> f x = f y -> x = y.
Proof.
  induction l as [|a l IH]; intros Hnd Hx Hy E; [contradiction|].
  cbn [map] in Hnd. inversion Hnd as [|? ? Hnot Hnd']; subst.
  destruct Hx as [-> | Hx], Hy as [-> | Hy]; auto.
  - exfalso. apply Hnot. rewrite E. now apply in_map.
  - exfalso. apply Hnot. rewrite <- E. now apply in_map.
Qed.

Section OneDirectory.
Variable rw : string -> string.
(** The names of the directory. *)
Variable N : list string.
Hypothesis Hinj : forall x y, In x N -> In y N -> rw x = rw y -> x = y.
Hypothesis Hfix : forall x, In x N -> In (rw x) N -> rw x = x.

Lemma renamed_part_app (done : list string) (l1 l2 : list (string * node)) :
  renamed_part rw done (l1 ++ l2) =
  (renamed_part rw done l1 ++ renamed_part rw done l2)%list.
Proof. apply map_app. Qed.

Lemma renamed_part_cons (done : list string) (e : string * node)
    (l : list (string * node)) :
  renamed_part rw done (e :: l) =
  (if in_list (fst e) done then (rw (fst e), finish_file rw (snd e)) else e)
    :: renamed_part rw done l.
Proof. reflexivity. Qed.

Lemma renamed_part_keys (done : list string) (l : list (string * node)) (k : string) :
  In k (map fst (renamed_part rw done l)) ->
  exists m, In m (map fst l) /\ (k = m \/ k = rw m).
Proof.
  unfold renamed_part. rewrite map_map, in_map_iff.
  intros ([m c] & E & Hin). cbn [fst] in E. exists m. split.
  - apply in_map_iff. now exists (m, c).
  - destruct (in_list m done); cbn [fst] in E; auto.
Qed.

(** A name still to be treated is not hidden by what was done to the
    other entries. *)
Lemma old_name_free (done : list string) (l : list (string * node)) (n : string) :
  In n N -> incl (map fst l) N -> ~ In n (map fst l) ->
  ~ In n (map fst (renamed_part rw done l)).
Proof.
  intros Hn Hl Hnot Hk. apply renamed_part_keys in Hk as (m & Hm & [-> | ->]);
    [contradiction|].
  assert (rw m = m) by (apply Hfix; auto).
  congruence.
Qed.

Lemma new_name_free (done : list string) (l : list (string * node)) (n : string) :
  In n N -> incl (map fst l) N -> ~ In n (map fst l) ->
  ~ In (rw n) (map fst (renamed_part rw done l)).
Proof.
  intros Hn Hl Hnot Hk. apply renamed_part_keys in Hk as (m & Hm & [E | E]).
  - assert (rw n = n) by (apply Hfix; [assumption | rewrite E; auto]).
    congruence.
  - apply Hnot. rewrite (Hinj n m); auto.
Qed.

Lemma renamed_part_cons_done (done : list string) (l : list (string * node))
    (n : string) :
  ~ In n (map fst l) ->
  renamed_part rw (n :: done) l = renamed_part rw done l.
Proof.
  intros H. unfold renamed_part. apply map_ext_in. intros [m c] Hin.
  cbn [fst snd in_list existsb]. fold (in_list m done).
  destruct (m =? n) eqn:E; [|reflexivity].
  apply String.eqb_eq in E. subst m. exfalso. apply H.
  apply in_map_iff. now exists (n, c).
Qed.

Variables sv tv : string.
Hypothesis Hrw : forall x, replace_python_version_in_content x sv tv = Some (rw x).

(** Treating one more entry. *)
Lemma rename_in_dir_step (done : list string) (pre post : list (string * node))
    (n : string) (c : node) :
  map fst (pre ++ (n, c) :: post) = N -> NoDup N -> ~ In n done ->
  rename_in_dir sv tv (negb (is_dir c)) n
    (renamed_part rw done (pre ++ (n, c) :: post)) =
  Done (renamed_part rw (n :: done) (pre ++ (n, c) :: post)).
Proof.
  intros HN Hnd Hdone.
  assert (Hn : In n N).
  { rewrite <- HN, map_app. apply in_or_app. right. now left. }
  assert (Hpre : incl (map fst pre) N).
  { intros x Hx. rewrite <- HN, map_app. apply in_or_app. now left. }
  assert (Hpost : incl (map fst post) N).
  { intros x Hx. rewrite <- HN, map_app. apply in_or_app. right. now right. }
  rewrite <- HN, map_app in Hnd. cbn [map fst] in Hnd.
  assert (Hnpre : ~ In n (map fst pre)).
  { apply NoDup_remove_2 in Hnd. intros H. apply Hnd, in_or_app. now left. }
  assert (Hnpost : ~ In n (map fst post)).
  { apply NoDup_remove_2 in Hnd. intros H. apply Hnd, in_or_app. now right. }
  set (pre' := renamed_part rw done pre).
  set (post' := renamed_part rw done post).
  assert (Ecur : renamed_part rw done (pre ++ (n, c) :: post) =
                 (pre' ++ (n, c) :: post')%list).
  { rewrite renamed_part_app, renamed_part_cons. cbn [fst snd].
    apply in_list_false_iff in Hdone. now rewrite Hdone. }
  assert (Enew : renamed_part rw (n :: done) (pre ++ (n, c) :: post) =
                 (pre' ++ (rw n, finish_file rw c) :: post')%list).
  { rewrite renamed_part_app, renamed_part_cons. cbn [fst snd].
    replace (in_list n (n :: done)) with true
      by (symmetry; apply in_list_iff; now left).
    now rewrite !renamed_part_cons_done. }
  rewrite Ecur, Enew. clear Ecur Enew.
  pose proof (old_name_free done pre n Hn Hpre Hnpre) as K1.
  pose proof (new_name_free done pre n Hn Hpre Hnpre) as K2.
  pose proof (new_name_free done post n Hn Hpost Hnpost) as K3.
  fold pre' in K1, K2. fold post' in K3.
  unfold rename_in_dir. rewrite Hrw.
  assert (E1 : (if n =? rw n then Done (pre' ++ (n, c) :: post')%list
                else match rename_entry n (rw n) (pre' ++ (n, c) :: post') with
                     | Some es' => Done es'
                     | None => Raised
                     end) = Done (pre' ++ (rw n, c) :: post')%list).
  { destruct (n =? rw n) eqn:E.
    - apply String.eqb_eq in E. now rewrite <- E.
    - apply String.eqb_neq in E. unfold rename_entry.
      rewrite (lookup_entry_app n pre' _ K1), lookup_entry_here.
      rewrite (lookup_entry_None (rw n)).
      + now rewrite rename_key_app.
      + rewrite map_app. cbn [map fst]. intros H.
        apply in_app_or in H as [H | [H | H]]; auto. }
  rewrite E1. cbn [bind]. f_equal.
  rewrite (lookup_entry_app (rw n) pre' _ K2), lookup_entry_here.
  destruct c as [content | sub]; cbn [is_dir negb finish_file]; [|reflexivity].
  rewrite Hrw. now apply set_entry_app.
Qed.

(** Treating a list of entries of one kind. *)
Lemma rename_in_dir_all (is_file : bool) (names done : list string)
    (es : list (string * node)) :
  map fst es = N -> NoDup N -> NoDup names ->
  (forall n, In n names -> ~ In n done) ->
  (forall n, In n names -> exists c, In (n, c) es /\ negb (is_dir c) = is_file) ->
  for_each (rename_in_dir sv tv is_file) names (renamed_part rw done es) =
  Done (renamed_part rw (rev names ++ done) es).
Proof.
  intros HN Hnd. revert done.
  induction names as [|n names IH]; intros done Hnames Hfresh Hkind;
    [reflexivity|].
  cbn [for_each].
  destruct (Hkind n (or_introl eq_refl)) as (c & Hin & <-).
  apply in_split in Hin as (pre & post & ->).
  rewrite (rename_in_dir_step done pre post n c HN Hnd
             (Hfresh n (or_introl eq_refl))).
  cbn [bind]. inversion Hnames as [|? ? Hn Hnames']; subst.
  rewrite IH; try assumption.
  - cbn [rev]. now rewrite <- app_assoc.
  - intros m Hm [<- | Hd]; [contradiction|].
    apply (Hfresh m); [now right | assumption].
  - intros m Hm. apply Hkind. now right.
Qed.
End OneDirectory.

(** ** TreeRewriter: the whole walk *)

Lemma plug_lookup_id (p : tree_path) (t : node) (fs : node) :
  lookup p fs = Some t -> plug p t fs = fs.
Proof.
  revert fs; induction p as [|name p IH]; intros fs H.
  - cbn in *. congruence.
  - cbn [lookup plug] in *. destruct fs as [|es]; [reflexivity|].
    destruct (lookup_entry name es) as [c|] eqn:E; [|reflexivity].
    rewrite (IH c H). f_equal. clear H IH.
    induction es as [|[n c0] es IHes]; [reflexivity|].
    cbn [lookup_entry set_entry] in *. destruct (n =? name); [congruence|].
    now rewrite IHes.
Qed.

Lemma depth_child (name : string) (c : node) (es : list (string * node)) :
  In (name, c) es -> depth c < depth (Dir es).
Proof.
  cbn [depth]. intros H. apply Nat.lt_succ_r.
  induction es as [|[n c0] es IH]; [contradiction|].
  destruct H as [H | H].
  - injection H as -> ->. apply Nat.le_max_l.
  - etransitivity; [apply (IH H) | apply Nat.le_max_r].
Qed.

Lemma entry_unique (es : list (string * node)) (n : string) (c1 c2 : node) :
  NoDup (map fst es) -> In (n, c1) es -> In (n, c2) es -> c1 = c2.
Proof.
  induction es as [|[m c] es IH]; intros Hnd H1 H2; [contradiction|].
  cbn [map fst] in Hnd. inversion Hnd as [|? ? Hnot Hnd']; subst.
  destruct H1 as [H1 | H1], H2 as [H2 | H2].
  - congruence.
  - injection H1 as -> ->. exfalso. apply Hnot.
    apply in_map_iff. now exists (n, c2).
  - injection H2 as -> ->. exfalso. apply Hnot.
    apply in_map_iff. now exists (n, c1).
  - now apply IH.
Qed.

Lemma file_names_iff (es : list (string * node)) (n : string) :
  In n (file_names es) <-> exists c, In (n, c) es /\ is_dir c = false.
Proof.
  unfold file_names. rewrite in_map_iff. split.
  - intros ([m c] & <- & H). apply filter_In in H as [H1 H2].
    apply negb_true_iff in H2. now exists c.
  - intros (c & H1 & H2). exists (n, c). split; [reflexivity|].
    apply filter_In. split; [assumption|]. now apply negb_true_iff.
Qed.

Lemma dir_names_iff (es : list (string * node)) (n : string) :
  In n (dir_names es) <-> exists c, In (n, c) es /\ is_dir c = true.
Proof.
  unfold dir_names. rewrite in_map_iff. split.
  - intros ([m c] & <- & H). apply filter_In in H as [H1 H2]. now exists c.
  - intros (c & H1 & H2). exists (n, c). split; [reflexivity|].
    apply filter_In. now split.
Qed.

(** The names kept by a filter on the entries are still distinct. *)
Lemma kept_names_NoDup (keep : string * node -> bool) (es : list (string * node)) :
  NoDup (map fst es) -> NoDup (map fst (filter keep es)).
Proof.
  induction es as [|e es IH]; intros Hnd; cbn [filter]; [constructor|].
  cbn [map] in Hnd. apply NoDup_cons_iff in Hnd as [Hfresh Hnd].
  destruct (keep e); [|now apply IH].
  cbn [map]. apply NoDup_cons; [|now apply IH].
  intros Hin. apply Hfresh.
  apply in_map_iff in Hin as (e' & E & He'). apply filter_In in He' as [He' _].
  apply in_map_iff. now exists e'.
Qed.

Lemma renamed_part_nil (rw : string -> string) (es : list (string * node)) :
  renamed_part rw [] es = es.
Proof. unfold renamed_part. cbn [in_list existsb]. apply map_id. Qed.

Lemma renamed_part_all (rw : string -> string) (done : list string)
    (es : list (string * node)) :
  incl (map fst es) done ->
  renamed_part rw done es =
  map (fun e => (rw (fst e), finish_file rw (snd e))) es.
Proof.
  intros H. unfold renamed_part. apply map_ext_in. intros [n c] Hin.
  cbn [fst snd]. replace (in_list n done) with true; [reflexivity|].
  symmetry. apply in_list_iff, H. apply in_map_iff. now exists (n, c).
Qed.

Lemma names_ok_inv (rw : string -> string) (names : list string) :
  names_ok rw names = true ->
  NoDup names /\
  (forall x y, In x names -> In y names -> rw x = rw y -> x = y) /\
  (forall x, In x names -> In (rw x) names -> rw x = x).
Proof.
  unfold names_ok. rewrite !andb_true_iff, !nodupb_iff, forallb_forall.
  intros [[H1 H2] H3]. split; [assumption|]. split.
  - intros x y Hx Hy E. now apply (NoDup_map_inj rw names).
  - intros x Hx Hr. specialize (H3 x Hx).
    apply orb_true_iff in H3 as [H3 | H3].
    + now apply String.eqb_eq in H3.
    + apply negb_true_iff, in_list_false_iff in H3. contradiction.
Qed.

Section WholeWalk.
Variables sv tv : string.
Hypothesis Hrw :
  forall x, replace_python_version_in_content x sv tv = Some (rewrite_text sv tv x).

(** The two loops of the body, run on a directory whose subdirectories
    are already rewritten. *)
Lemma rename_loops (es : list (string * node)) :
  names_ok (rewrite_text sv tv) (map fst es) = true ->
  (es1 <- for_each (rename_in_dir sv tv true) (file_names es) es ;;
   for_each (rename_in_dir sv tv false) (dir_names es) es1) =
  Done (map (fun e => (rewrite_text sv tv (fst e),
                       finish_file (rewrite_text sv tv) (snd e))) es).
Proof.
  intros Hok. apply names_ok_inv in Hok as (Hnd & Hinj & Hfix).
  pose proof (rename_in_dir_all (rewrite_text sv tv) (map fst es) Hinj Hfix
                sv tv Hrw true (file_names es) [] es eq_refl Hnd) as Hfiles.
  rewrite renamed_part_nil in Hfiles. rewrite Hfiles; clear Hfiles.
  - cbn [bind].
    rewrite (rename_in_dir_all (rewrite_text sv tv) (map fst es) Hinj Hfix
               sv tv Hrw false (dir_names es) _ es eq_refl Hnd).
    + f_equal. apply renamed_part_all. intros n Hn.
      apply in_map_iff in Hn as ([m c] & <- & Hin). cbn [fst].
      apply in_or_app. destruct (is_dir c) eqn:E.
      * left. apply in_rev. rewrite rev_involutive.
        apply dir_names_iff. now exists c.
      * right. rewrite app_nil_r. apply in_rev. rewrite rev_involutive.
        apply file_names_iff. now exists c.
    + now apply kept_names_NoDup.
    + intros n Hn Hd. rewrite app_nil_r in Hd. apply in_rev in Hd.
      apply dir_names_iff in Hn as (c1 & H1 & E1).
      apply file_names_iff in Hd as (c2 & H2 & E2).
      rewrite (entry_unique es n c1 c2 Hnd H1 H2) in E1. congruence.
    + intros n Hn. apply dir_names_iff in Hn as (c & H & E).
      exists c. now rewrite E.
  - now apply kept_names_NoDup.
  - intros n _ [].
  - intros n Hn. apply file_names_iff in Hn as (c & H & E).
    exists c. now rewrite E.
Qed.

Lemma settle_child_fst (es : list (string * node)) :
  map fst (map (settle_child sv tv) es) = map fst es.
Proof. rewrite map_map. now apply map_ext. Qed.

Lemma settle_child_dir_names (es : list (string * node)) :
  dir_names (map (settle_child sv tv) es) = dir_names es.
Proof.
  unfold dir_names. induction es as [|[n c] es IH]; [reflexivity|].
  cbn [map filter]. unfold settle_child at 1. cbn [fst snd].
  destruct c; cbn [is_dir rewrite_tree map fst]; now rewrite IH.
Qed.

Lemma settle_child_file_names (es : list (string * node)) :
  file_names (map (settle_child sv tv) es) = file_names es.
Proof.
  unfold file_names. induction es as [|[n c] es IH]; [reflexivity|].
  cbn [map filter]. unfold settle_child at 1. cbn [fst snd].
  destruct c; cbn [is_dir rewrite_tree negb map fst]; now rewrite IH.
Qed.

Lemma finish_settled (es : list (string * node)) :
  map (fun e => (rewrite_text sv tv (fst e),
                 finish_file (rewrite_text sv tv) (snd e)))
    (map (settle_child sv tv) es) =
  map (fun e => (rewrite_text sv tv (fst e), rewrite_tree sv tv (snd e))) es.
Proof.
  rewrite map_map. apply map_ext. intros [n c]. unfold settle_child.
  cbn [fst snd]. now destruct c.
Qed.

Lemma collision_free_inv (es : list (string * node)) :
  collision_free (rewrite_text sv tv) (Dir es) = true ->
  names_ok (rewrite_text sv tv) (map fst es) = true /\
  forall n c, In (n, c) es -> collision_free (rewrite_text sv tv) c = true.
Proof.
  cbn [collision_free]. rewrite andb_true_iff, forallb_forall.
  intros [H1 H2]. split; [assumption|]. intros n c Hin. apply (H2 (n, c) Hin).
Qed.

Lemma rewrite_post_order_dir (es : list (string * node)) :
  rewrite_post_order sv tv (Dir es) =
  (es1 <- rewrite_children sv tv es ;;
   es2 <- for_each (rename_in_dir sv tv true) (file_names es) es1 ;;
   es3 <- for_each (rename_in_dir sv tv false) (dir_names es) es2 ;;
   Done (Dir es3)).
Proof.
  cbn [rewrite_post_order]. f_equal.
  induction es as [|[n c] es IH]; [reflexivity|].
  cbn [rewrite_children]. now rewrite IH.
Qed.

(** On a tree free of clashes the recursion ends with the rewritten
    tree. *)
Lemma rewrite_post_order_clash_free (n : node) :
  collision_free (rewrite_text sv tv) n = true ->
  is_dir n = true ->
  rewrite_post_order sv tv n = Done (rewrite_tree sv tv n).
Proof.
  induction n as [content | es IH] using node_ind'; intros Hcf Hdir;
    [discriminate|].
  rewrite rewrite_post_order_dir.
  apply collision_free_inv in Hcf as [Hok Hsubs].
  assert (Hch : rewrite_children sv tv es = Done (map (settle_child sv tv) es)).
  { clear Hok Hdir. revert Hsubs.
    induction IH as [|[n c] es Hc _ IHes]; intros Hsubs; [reflexivity|].
    cbn [rewrite_children map]. cbn [snd] in Hc.
    rewrite IHes by (intros m c' Hin; apply (Hsubs m c'); now right).
    unfold settle_child at 1. cbn [fst snd].
    destruct c as [content | sub]; [reflexivity|].
    rewrite Hc; [reflexivity | apply (Hsubs n); now left | reflexivity]. }
  rewrite Hch. cbn [bind].
  rewrite <- (settle_child_dir_names es), <- (settle_child_file_names es).
  rewrite <- (settle_child_fst es) in Hok.
  pose proof (rename_loops _ Hok) as Hloops.
  destruct (for_each (rename_in_dir sv tv true)
              (file_names (map (settle_child sv tv) es))
              (map (settle_child sv tv) es)) as [es1| |];
    cbn [bind] in Hloops |- *; try discriminate.
  rewrite Hloops. cbn [bind rewrite_tree]. now rewrite finish_settled.
Qed.
End WholeWalk.

Lemma rewrite_children_fst (sv tv : string) (es es' : list (string * node)) :
  rewrite_children sv tv es = Done es' -> map fst es' = map fst es.
Proof.
  revert es'; induction es as [|[n c] es IH]; intros es' H.
  - cbn in H. now injection H as <-.
  - cbn [rewrite_children] in H.
    destruct (match c with
              | Dir _ => rewrite_post_order sv tv c
              | File _ => Done c
              end) as [c'| |]; cbn [bind] in H; try discriminate.
    destruct (rewrite_children sv tv es) as [es''| |]; cbn [bind] in H;
      try discriminate.
    injection H as <-. cbn [map fst]. now rewrite (IH es'' eq_refl).
Qed.

Section PathsAndRecursion.
Variables sv tv : string.

(** The walks of the subdirectories of the directory at [top], given
    that each of them does what the recursion does ([Hsub]): [done] holds
    the entries already dealt with, [post] those still to come. *)
Lemma children_walks (fuel : nat) (top : tree_path) (fs : node)
    (es : list (string * node)) :
  lookup top fs <> None -> NoDup (map fst es) ->
  (forall n sub fs', In (n, Dir sub) es ->
     lookup (top ++ [n])%list fs' = Some (Dir sub) ->
     walk_bottomup (rewrite_body sv tv) fuel (top ++ [n])%list fs' =
     (t' <- rewrite_post_order sv tv (Dir sub) ;;
      Done (plug (top ++ [n])%list t' fs'))) ->
  forall pre post done, es = (pre ++ post)%list -> map fst done = map fst pre ->
    for_each (fun d fs => walk_bottomup (rewrite_body sv tv) fuel (top ++ [d])%list fs)
      (dir_names post) (plug top (Dir (done ++ post)) fs) =
    (post' <- rewrite_children sv tv post ;;
     Done (plug top (Dir (done ++ post')) fs)).
Proof.
  intros Htop Hnd Hsub pre post; revert pre.
  induction post as [|[n c] post IH]; intros pre done E Hdone; [reflexivity|].
  assert (Enext : es = ((pre ++ [(n, c)]) ++ post)%list)
    by (now rewrite <- app_assoc).
  assert (Hkeys : forall c', map fst (done ++ [(n, c')]) = map fst (pre ++ [(n, c)])).
  { intros c'. rewrite !map_app. cbn [map fst]. now rewrite Hdone. }
  cbn [rewrite_children].
  destruct c as [content | sub].
  - change (dir_names ((n, File content) :: post)) with (dir_names post).
    cbn [bind].
    replace (done ++ (n, File content) :: post)%list
      with ((done ++ [(n, File content)]) ++ post)%list
      by (now rewrite <- app_assoc).
    rewrite (IH _ _ Enext (Hkeys _)).
    destruct (rewrite_children sv tv post) as [post'| |]; cbn [bind];
      try reflexivity.
    now rewrite <- app_assoc.
  - change (dir_names ((n, Dir sub) :: post)) with (n :: dir_names post).
    cbn [for_each].
    assert (Hn : ~ In n (map fst done)).
    { rewrite Hdone. rewrite E, map_app in Hnd.
      apply NoDup_remove_2 in Hnd. intros H. apply Hnd, in_or_app. now left. }
    assert (Hlook : lookup (top ++ [n])%list
                      (plug top (Dir (done ++ (n, Dir sub) :: post)) fs) =
                    Some (Dir sub)).
    { rewrite lookup_child by assumption.
      now rewrite lookup_entry_app, lookup_entry_here. }
    rewrite (Hsub n sub _); [| rewrite E; apply in_or_app; right; now left
                             | assumption].
    destruct (rewrite_post_order sv tv (Dir sub)) as [t'| |]; cbn [bind];
      try reflexivity.
    rewrite plug_child; [| assumption |].
    + rewrite set_entry_app by assumption.
      replace (done ++ (n, t') :: post)%list
        with ((done ++ [(n, t')]) ++ post)%list
        by (now rewrite <- app_assoc).
      rewrite (IH _ _ Enext (Hkeys _)).
      destruct (rewrite_children sv tv post) as [post'| |]; cbn [bind];
        try reflexivity.
      now rewrite <- app_assoc.
    + rewrite lookup_entry_app, lookup_entry_here by assumption. discriminate.
Qed.

Lemma unique_names_inv (es : list (string * node)) :
  unique_names (Dir es) = true ->
  NoDup (map fst es) /\ forall n c, In (n, c) es -> unique_names c = true.
Proof.
  cbn [unique_names]. rewrite andb_true_iff, nodupb_iff, forallb_forall.
  intros [H1 H2]. split; [assumption|]. intros n c Hin. apply (H2 (n, c) Hin).
Qed.

(** The walk over paths does, for the directory found at [top], what the
    recursion over the tree does: no step of it is lost to a path made
    stale by a renaming. *)
Lemma walk_bottomup_post_order (fuel : nat) :
  forall (es : list (string * node)) (top : tree_path) (fs : node),
    depth (Dir es) <= fuel ->
    unique_names (Dir es) = true ->
    lookup top fs = Some (Dir es) ->
    walk_bottomup (rewrite_body sv tv) fuel top fs =
    (t' <- rewrite_post_order sv tv (Dir es) ;; Done (plug top t' fs)).
Proof.
  induction fuel as [|fuel IH]; intros es top fs Hd Hun Hl;
    [cbn [depth] in Hd; lia|].
  cbn [walk_bottomup]. rewrite Hl. rewrite rewrite_post_order_dir.
  apply unique_names_inv in Hun as [Hnd Hsubs].
  assert (Htop : lookup top fs <> None) by congruence.
  pose proof (children_walks fuel top fs es Htop Hnd) as Hc.
  specialize (fun H => Hc H [] es [] eq_refl eq_refl). cbn [app] in Hc.
  rewrite (plug_lookup_id top (Dir es) fs Hl) in Hc. rewrite Hc.
  - destruct (rewrite_children sv tv es) as [es1| |]; cbn [bind];
      try reflexivity.
    rewrite rewrite_body_lift by assumption.
    destruct (for_each (rename_in_dir sv tv true) (file_names es) es1)
      as [es2| |]; cbn [bind]; try reflexivity.
    destruct (for_each (rename_in_dir sv tv false) (dir_names es) es2)
      as [es3| |]; reflexivity.
  - intros n sub fs' Hin Hl'. apply IH; [| now apply (Hsubs n) | assumption].
    apply depth_child in Hin. lia.
Qed.
End PathsAndRecursion.

Lemma collision_free_unique (rw : string -> string) (n : node) :
  collision_free rw n = true -> unique_names n = true.
Proof.
  induction n as [content | es IH] using node_ind'; [reflexivity|].
  cbn [collision_free unique_names]. rewrite !andb_true_iff, !forallb_forall.
  intros [Hok Hsubs]. split.
  - unfold names_ok in Hok. rewrite !andb_true_iff in Hok. tauto.
  - intros e He. rewrite Forall_forall in IH. apply (IH e He), (Hsubs e He).
Qed.

Lemma rewrite_text_valid (a b c d x : string) :
  is_number a = true -> is_number b = true ->
  is_number c = true -> is_number d = true ->
  replace_python_version_in_content x (a ++ "." ++ b) (c ++ "." ++ d) =
  Some (rewrite_text (a ++ "." ++ b) (c ++ "." ++ d) x).
Proof.
  intros Ha Hb Hc Hd. unfold rewrite_text.
  now rewrite (rewrite_unfolds a b c d x Ha Hb Hc Hd).
Qed.






(* ================================================================== *)
(** * Further properties *)
(* ================================================================== *)

(** ** Version validation *)

Lemma match_digits_then_inv (k : string -> bool) (seen : bool) (s : string) :
  match_digits_then k seen s = true ->
  exists a rest,
    s = a ++ rest /\ all_digits a = true /\ (seen = true \/ a <> "") /\
    k rest = true.
Proof.
  revert seen; induction s as [|c s IH]; intros seen H.
  - cbn [match_digits_then] in H. apply andb_true_iff in H as [-> Hk].
    exists "", "". repeat split; auto.
  - cbn [match_digits_then] in H. destruct (is_digit c) eqn:Ec.
    + destruct (IH true H) as (a & rest & -> & Ha & _ & Hk).
      exists (String c a), rest. repeat split; auto.
      * cbn [all_digits]. now rewrite Ec.
      * right; discriminate.
    + apply andb_true_iff in H as [-> Hk].
      exists "", (String c s). repeat split; auto.
Qed.

Lemma at_end_inv (r : string) : at_end r = true -> r = "" \/ r = newline.
Proof.
  destruct r as [|c [|d r]]; cbn [at_end]; intros H; try discriminate.
  - now left.
  - right. apply Ascii.eqb_eq in H. now subst.
Qed.

Lemma is_number_intro (s : string) :
  s <> "" -> all_digits s = true -> is_number s = true.
Proof.
  intros H1 H2. unfold is_number. rewrite H2, andb_true_r.
  apply negb_true_iff. now apply String.eqb_neq.
Qed.

Lemma check_python_version_newline (a b : string) :
  is_number a = true -> is_number b = true ->
  check_python_version (a ++ "." ++ b ++ newline) = true.
Proof.
  intros Ha Hb. apply is_number_inv in Ha as [Ha1 Ha2], Hb as [Hb1 Hb2].
  unfold check_python_version.
  rewrite match_digits_then_number; try assumption; [| now right |].
  - cbn [append].
    rewrite match_digits_then_number; try assumption; [reflexivity | now right |].
    intros c r E. unfold newline in E. now injection E as <- _.
  - intros c r E. cbn [append] in E. now injection E as <- _.
Qed.

Lemma check_python_version_shape (version : string) :
  check_python_version version = true <->
  exists a b,
    is_number a = true /\ is_number b = true /\
    (version = a ++ "." ++ b \/ version = a ++ "." ++ b ++ newline).
Proof.
  split.
  - unfold check_python_version. intros H.
    apply match_digits_then_inv in H as (a & rest & -> & Ha & [Hs | Hne] & Hk);
      [discriminate|].
    destruct rest as [|c rest]; [discriminate|].
    destruct c as [[] [] [] [] [] [] [] []]; try discriminate.
    apply match_digits_then_inv in Hk as (b & r & -> & Hb & [Hs | Hnb] & Hr);
      [discriminate|].
    exists a, b. split; [now apply is_number_intro|].
    split; [now apply is_number_intro|].
    apply at_end_inv in Hr as [-> | ->].
    + left. now rewrite sapp_nil_r.
    + now right.
  - intros (a & b & Ha & Hb & [-> | ->]).
    + now apply check_python_version_valid.
    + now apply check_python_version_newline.
Qed.



Lemma has_char_app (c : ascii) (x y : string) :
  has_char c (x ++ y) = has_char c x || has_char c y.
Proof.
  induction x as [|d x IH]; [reflexivity|].
  cbn [append has_char]. now rewrite IH, orb_assoc.
Qed.

Lemma extract_python_version_two (a b : string) :
  has_char "." a = false -> has_char "." b = false ->
  extract_python_version (a ++ "." ++ b) = [a; b].
Proof.
  intros Ha Hb. unfold extract_python_version, str_split.
  change (a ++ "." ++ b) with (a ++ String "." b).
  now rewrite split_from_one_sep.
Qed.

Lemma number_no_dot (s : string) : is_number s = true -> has_char "." s = false.
Proof.
  intros H. apply is_number_inv in H as [_ H].
  now apply all_digits_has_char.
Qed.

Lemma checked_version_unpacks (version : string) :
  check_python_version version = true ->
  exists major minor, extract_python_version version = [major; minor].
Proof.
  intros H. apply check_python_version_shape in H as (a & b & Ha & Hb & [-> | ->]).
  - exists a, b. apply extract_python_version_two; now apply number_no_dot.
  - exists a, (b ++ newline). apply extract_python_version_two.
    + now apply number_no_dot.
    + rewrite has_char_app, (number_no_dot b Hb). reflexivity.
Qed.

(** X2.  Once both versions have passed [check_python_version], the content
    rewriting never fails to unpack them: it returns a text for every
    input. *)
Theorem checked_versions_never_raise (content source_version target_version : string) :
  check_python_version source_version = true ->
  check_python_version target_version = true ->
  exists result,
    replace_python_version_in_content content source_version target_version =
    Some result.
Proof.
  intros Hs Ht.
  destruct (checked_version_unpacks _ Hs) as (sM & sm & Es).
  destruct (checked_version_unpacks _ Ht) as (tM & tm & Et).
  unfold replace_python_version_in_content. rewrite Es, Et. eexists. reflexivity.
Qed.

Lemma checked_versions_never_raise_example :
  exists result,
    replace_python_version_in_content "FROM python:3.9" "3.9" "3.12" = Some result.
Proof.
  apply checked_versions_never_raise; reflexivity.
Defined.

Lemma extract_python_version_no_dot (version : string) :
  has_char "." version = false -> extract_python_version version = [version].
Proof.
  intros H. unfold extract_python_version, str_split.
  now rewrite split_from_no_sep.
Qed.

(** X3.  A source or target version without a dot cannot be unpacked into
    major and minor: the content rewriting raises, whatever the text. *)
Theorem dotless_version_raises (content source_version target_version : string) :
  has_char "." source_version = false \/ has_char "." target_version = false ->
  replace_python_version_in_content content source_version target_version = None.
Proof.
  unfold replace_python_version_in_content. intros [H | H];
    rewrite (extract_python_version_no_dot _ H); [reflexivity|].
  destruct (extract_python_version source_version) as [|x [|y [|z l]]];
    reflexivity.
Qed.

Lemma dotless_version_raises_example :
  replace_python_version_in_content "FROM python:3.9" "3.9" "311" = None.
Proof.
  apply dotless_version_raises. right. reflexivity.
Defined.

(** ** What the rewriting leaves alone *)

Lemma str_replace_absent (x old new : string) :
  old <> "" -> contains old x = false -> str_replace x old new = x.
Proof.
  intros Hne. induction x as [|c x IH]; intros H.
  - now apply str_replace_nil.
  - apply contains_false_tail in H as [H1 H2].
    rewrite str_replace_miss by assumption. now rewrite IH.
Qed.

Lemma str_replace_same (x s : string) : str_replace x s s = x.
Proof.
  destruct s as [|c s].
  - cbn [str_replace]. induction x as [|d x IH]; [reflexivity|].
    cbn [replace_empty append]. now rewrite IH.
  - assert (Hne : String c s <> "") by discriminate.
    induction x as [| x IH | d x Hmiss IH] using (replace_scan_ind _ Hne).
    + now apply str_replace_nil.
    + rewrite str_replace_hit by assumption. now rewrite IH.
    + rewrite str_replace_miss by assumption. now rewrite IH.
Qed.

Lemma rewrite_unrelated (a b c d text : string) :
  is_number a = true -> is_number b = true ->
  is_number c = true -> is_number d = true ->
  free_of_forms (a ++ "." ++ b) text = true ->
  replace_python_version_in_content text (a ++ "." ++ b) (c ++ "." ++ d) = Some text.
Proof.
  intros Ha Hb Hc Hd Hfree.
  rewrite (rewrite_unfolds a b c d text Ha Hb Hc Hd).
  unfold free_of_forms in Hfree.
  rewrite (version_forms_valid a b Ha Hb) in Hfree.
  cbn [forallb] in Hfree. split_andb.
  apply is_number_inv in Ha as [Ha _].
  cbn [apply_patterns fold_left fst snd].
  rewrite (str_replace_absent text (a ++ "." ++ b)); try assumption;
    [| now apply form_nonempty_l].
  rewrite (str_replace_absent text (a ++ "-" ++ b)); try assumption;
    [| now apply form_nonempty_l].
  rewrite (str_replace_absent text ("python-" ++ a ++ b)); try assumption;
    [| discriminate].
  rewrite (str_replace_absent text ("py" ++ a ++ b)); try assumption;
    [reflexivity | discriminate].
Qed.

(** X4.  A text that holds none of the four source forms comes out of the
    rewriting unchanged. *)
Theorem rewrite_leaves_unrelated_text (a b c d text : string) :
  is_number a = true -> is_number b = true ->
  is_number c = true -> is_number d = true ->
  free_of_forms (a ++ "." ++ b) text = true ->
  replace_python_version_in_content text (a ++ "." ++ b) (c ++ "." ++ d) = Some text.
Proof. exact (rewrite_unrelated a b c d text). Qed.

Lemma rewrite_leaves_unrelated_text_example :
  replace_python_version_in_content "FROM python:3.12 # py312" "3.9" "3.11" =
  Some "FROM python:3.12 # py312".
Proof.
  apply (rewrite_leaves_unrelated_text "3" "9" "3" "11"); reflexivity.
Defined.

(** X5.  Rewriting from a version to itself changes no text. *)
Theorem rewrite_to_same_version (a b text : string) :
  is_number a = true -> is_number b = true ->
  replace_python_version_in_content text (a ++ "." ++ b) (a ++ "." ++ b) = Some text.
Proof.
  intros Ha Hb. rewrite (rewrite_unfolds a b a b text Ha Hb Ha Hb).
  cbn [apply_patterns fold_left fst snd]. now rewrite !str_replace_same.
Qed.

Lemma rewrite_to_same_version_example :
  replace_python_version_in_content "python-39 py39 3-9 3.9" "3.9" "3.9" =
  Some "python-39 py39 3-9 3.9".
Proof.
  apply (rewrite_to_same_version "3" "9"); reflexivity.
Defined.

(** ** What the rewriting leaves behind *)

(** A block [d] that [a] cannot touch, put in front of a text without [a],
    gives a text without [a]. *)
Lemma contains_block (a d y : string) :
  suffix_meets_prefix d a = false -> contains a d = false ->
  contains a y = false -> contains a (d ++ y) = false.
Proof.
  intros Hsp Hin Hy. induction d as [|h d IH]; [assumption|].
  cbn [append]. rewrite contains_cons.
  apply orb_false_iff. split.
  - destruct (startswith (String h (d ++ y)) a) eqn:E; [|reflexivity].
    exfalso.
    apply (startswith_app_cases (String h d) y a) in E as [E | (a' & _ & -> & _)].
    + apply contains_startswith in E. congruence.
    + cbn [suffix_meets_prefix] in Hsp. apply orb_false_iff in Hsp as [Hsp _].
      now rewrite (startswith_app (String h d) a') in Hsp.
  - apply IH.
    + now apply suffix_meets_prefix_tail in Hsp.
    + now apply contains_false_tail in Hin.
Qed.

(** Replacing [c] by [d] brings no [a] into a text that had none, when [a]
    and [d] keep apart. *)
Lemma str_replace_keeps_absent (a c d x : string) :
  c <> "" -> apart a d = true ->
  contains a x = false -> contains a (str_replace x c d) = false.
Proof.
  intros Hc Had.
  destruct (apart_inv _ _ Had) as (_ & Hsp & Hin & _).
  induction x as [| x IH | h x Hmiss IH] using (replace_scan_ind c Hc);
    intros Hx.
  - now rewrite str_replace_nil.
  - rewrite str_replace_hit by assumption.
    apply contains_block; try assumption.
    apply IH. now apply contains_false_suffix in Hx.
  - apply contains_false_tail in Hx as [Hx1 Hx2].
    rewrite str_replace_miss by assumption. rewrite contains_cons.
    apply orb_false_iff. split; [|now apply IH].
    now apply apart_no_new_prefix.
Qed.

(** Replacing [s] by [t] leaves no [s], when [s] and [t] keep apart. *)
Lemma str_replace_removes (s t x : string) :
  s <> "" -> apart s t = true -> contains s (str_replace x s t) = false.
Proof.
  intros Hs Hst.
  destruct (apart_inv _ _ Hst) as (_ & Hsp & Hin & _).
  induction x as [| x IH | h x Hmiss IH] using (replace_scan_ind s Hs).
  - rewrite str_replace_nil by assumption. rewrite contains_nil.
    destruct s; [congruence | reflexivity].
  - rewrite str_replace_hit by assumption. now apply contains_block.
  - rewrite str_replace_miss by assumption. rewrite contains_cons.
    apply orb_false_iff. split; [|assumption].
    now apply apart_no_new_prefix.
Qed.

(** No source form is left in a rewritten text. *)
Lemma rewritten_text_free (a b c d text : string) :
  is_number a = true -> is_number b = true ->
  is_number c = true -> is_number d = true ->
  forms_independent (a ++ "." ++ b) (c ++ "." ++ d) = true ->
  sources_apart_from_targets (a ++ "." ++ b) (c ++ "." ++ d) = true ->
  free_of_forms (a ++ "." ++ b)
    (rewrite_text (a ++ "." ++ b) (c ++ "." ++ d) text) = true.
Proof.
  intros Ha Hb Hc Hd Hind Hst. unfold rewrite_text.
  rewrite (rewrite_unfolds a b c d text Ha Hb Hc Hd).
  unfold forms_independent, sources_apart_from_targets, free_of_forms in *.
  rewrite (version_forms_valid a b Ha Hb) in *.
  rewrite (version_forms_valid c d Hc Hd) in *.
  cbn [shapes_apart forallb combine fst snd] in Hind, Hst |- *.
  apply is_number_inv in Ha as [Ha _].
  assert (N1 : a ++ "." ++ b <> "") by now apply form_nonempty_l.
  assert (N2 : a ++ "-" ++ b <> "") by now apply form_nonempty_l.
  assert (N3 : "python-" ++ a ++ b <> "") by discriminate.
  assert (N4 : "py" ++ a ++ b <> "") by discriminate.
  split_andb.
  cbn [apply_patterns fold_left fst snd].
  rewrite !andb_true_iff, !negb_true_iff. repeat split.
  - do 3 (apply str_replace_keeps_absent; [assumption | assumption |]).
    now apply str_replace_removes.
  - do 2 (apply str_replace_keeps_absent; [assumption | assumption |]).
    now apply str_replace_removes.
  - apply str_replace_keeps_absent; [assumption | assumption |].
    now apply str_replace_removes.
  - now apply str_replace_removes.
Qed.

(** X6.  For a version pair whose forms keep out of each other's way, and
    whose source forms keep apart from the target forms of the same shape,
    the rewritten text holds none of the four source forms, and rewriting
    it once more changes nothing. *)
Theorem rewrite_settles (a b c d text : string) :
  is_number a = true -> is_number b = true ->
  is_number c = true -> is_number d = true ->
  forms_independent (a ++ "." ++ b) (c ++ "." ++ d) = true ->
  sources_apart_from_targets (a ++ "." ++ b) (c ++ "." ++ d) = true ->
  exists text',
    replace_python_version_in_content text (a ++ "." ++ b) (c ++ "." ++ d) =
      Some text' /\
    free_of_forms (a ++ "." ++ b) text' = true /\
    replace_python_version_in_content text' (a ++ "." ++ b) (c ++ "." ++ d) =
      Some text'.
Proof.
  intros Ha Hb Hc Hd Hind Hst.
  exists (rewrite_text (a ++ "." ++ b) (c ++ "." ++ d) text).
  pose proof (rewritten_text_free a b c d text Ha Hb Hc Hd Hind Hst) as Hfree.
  split; [now apply rewrite_text_valid|].
  split; [assumption|].
  now apply rewrite_unrelated.
Qed.

Lemma rewrite_settles_example :
  exists text',
    replace_python_version_in_content "python-39 py39 3-9 3.9" "3.9" "3.11" =
      Some text' /\
    free_of_forms "3.9" text' = true /\
    replace_python_version_in_content text' "3.9" "3.11" = Some text'.
Proof.
  apply (rewrite_settles "3" "9" "3" "11"); reflexivity.
Defined.

(** Rewriting [3.1] to [3.11] does not settle: a second pass rewrites the
    result again. *)
Example rewrite_31_311_twice :
  replace_python_version_in_content "3.1" "3.1" "3.11" = Some "3.11" /\
  replace_python_version_in_content "3.11" "3.1" "3.11" = Some "3.111".
Proof. split; reflexivity. Qed.

(** ** Replacing always shows *)

Lemma str_replace_shorter (s t x : string) :
  s <> "" -> String.length t <= String.length s ->
  String.length (str_replace x s t) <= String.length x.
Proof.
  intros Hs Hlen.
  induction x as [| x IH | h x Hmiss IH] using (replace_scan_ind s Hs).
  - now rewrite str_replace_nil.
  - rewrite str_replace_hit by assumption. rewrite !slength_app. lia.
  - rewrite str_replace_miss by assumption. cbn [String.length]. lia.
Qed.

Lemma str_replace_longer (s t x : string) :
  s <> "" -> String.length s <= String.length t ->
  String.length x <= String.length (str_replace x s t).
Proof.
  intros Hs Hlen.
  induction x as [| x IH | h x Hmiss IH] using (replace_scan_ind s Hs).
  - now rewrite str_replace_nil.
  - rewrite str_replace_hit by assumption. rewrite !slength_app. lia.
  - rewrite str_replace_miss by assumption. cbn [String.length]. lia.
Qed.

Lemma sapp_same_length (a b x y : string) :
  a ++ x = b ++ y -> String.length a = String.length b -> a = b.
Proof.
  revert b; induction a as [|c a IH]; intros [|e b] E L;
    try discriminate; [reflexivity|].
  cbn [append] in E. cbn [String.length] in L.
  injection E as -> E. f_equal. apply IH; [assumption | lia].
Qed.

(** A text that holds [s] is changed by replacing [s] with another
    string. *)
Lemma str_replace_changes (s t x : string) :
  s <> "" -> s <> t -> contains s x = true -> str_replace x s t <> x.
Proof.
  intros Hs Hst.
  induction x as [| x IH | h x Hmiss IH] using (replace_scan_ind s Hs);
    intros Hx.
  - rewrite contains_nil in Hx. destruct s; [congruence | discriminate].
  - rewrite str_replace_hit by assumption. intros E.
    destruct (Nat.lt_trichotomy (String.length t) (String.length s))
      as [L | [L | L]].
    + pose proof (str_replace_shorter s t x Hs (Nat.lt_le_incl _ _ L)).
      apply (f_equal String.length) in E. rewrite !slength_app in E. lia.
    + apply Hst. symmetry. now apply (sapp_same_length t s _ _ E).
    + pose proof (str_replace_longer s t x Hs (Nat.lt_le_incl _ _ L)).
      apply (f_equal String.length) in E. rewrite !slength_app in E. lia.
  - rewrite str_replace_miss by assumption. intros E. injection E as E.
    apply IH; [|assumption].
    rewrite contains_cons, Hmiss in Hx. exact Hx.
Qed.

(** ** PathScanner and PathMapper together *)

Lemma filter_all {A : Type} (f : A -> bool) (l : list A) :
  (forall x, In x l -> f x = true) -> filter f l = l.
Proof.
  induction l as [|a l IH]; intros H; [reflexivity|].
  cbn [filter]. rewrite (H a (or_introl eq_refl)).
  f_equal. apply IH. intros x Hx. apply H. now right.
Qed.

(** X7.  The filter on the source version at the end of
    [find_matching_paths] never removes anything: the result is the list
    the loop has built. *)
Theorem find_final_filter_keeps_all (context_dir source_version match_ : string)
    (tree : node) :
  find_matching_paths context_dir source_version match_ tree =
  matching_paths
    (os_walk (find_body source_version match_) context_dir tree
       (mk_find_state [] [])).
Proof.
  unfold find_matching_paths. cbv zeta.
  rewrite (os_walk_fold (find_body source_version match_)
             (find_prune source_version match_)
             (find_body_prune source_version match_)).
  apply filter_all. intros p Hp.
  apply (find_fold_sound source_version match_) in Hp as [[] | (v & _ & <- & Hq)].
  now apply qualifies_inv in Hq.
Qed.

(** X8.  Every directory the walk yields that is not blocked, has both
    substrings in its path and lists a [Dockerfile] is returned. *)
Theorem find_matching_paths_complete (context_dir source_version match_ : string)
    (tree : node) (v : visit) :
  In v (find_visits context_dir source_version match_ tree) ->
  qualifies source_version match_ v = true ->
  In (visit_root v) (find_matching_paths context_dir source_version match_ tree).
Proof.
  intros Hv Hq. apply find_matching_paths_iff. now exists v.
Qed.

Lemma find_matching_paths_complete_example :
  In "./jupyter/minimal-3.9"
    (find_matching_paths "." "3.9" "minimal"
       (Dir [("jupyter",
              Dir [("minimal-3.9", Dir [("Dockerfile", File "FROM python:3.9")])])])).
Proof.
  apply (find_matching_paths_complete "." "3.9" "minimal" _
           ("./jupyter/minimal-3.9", [], ["Dockerfile"])).
  - vm_compute. tauto.
  - reflexivity.
Defined.

Lemma on_paths_of_scan (context_dir source_version target_version match_ : string)
    (tree : node) :
  replace_python_version_on_paths
    (find_matching_paths context_dir source_version match_ tree)
    source_version target_version =
  map (fun p => (p, str_replace p source_version target_version))
    (find_matching_paths context_dir source_version match_ tree).
Proof.
  rewrite on_paths_distinct.
  now rewrite (distinct_NoDup _ (find_matching_paths_NoDup _ _ _ _)).
Qed.

(** X9.  Applied to what the scan returns, the mapping has exactly one
    entry per returned path, in scan order. *)
Theorem mapping_of_scan (context_dir source_version target_version match_ : string)
    (tree : node) :
  replace_python_version_on_paths
    (find_matching_paths context_dir source_version match_ tree)
    source_version target_version =
  map (fun p => (p, str_replace p source_version target_version))
    (find_matching_paths context_dir source_version match_ tree).
Proof. apply on_paths_of_scan. Qed.

(** X10.  When the two versions differ, every destination of the mapping
    built from the scan differs from its source: no directory is mapped
    onto itself. *)
Theorem destination_differs_from_source
    (context_dir source_version target_version match_ : string)
    (tree : node) (src dst : string) :
  source_version <> "" -> source_version <> target_version ->
  In (src, dst)
    (replace_python_version_on_paths
       (find_matching_paths context_dir source_version match_ tree)
       source_version target_version) ->
  dst <> src.
Proof.
  intros Hne Hdiff Hin. rewrite on_paths_of_scan in Hin.
  apply in_map_iff in Hin as (p & E & Hp). injection E as <- <-.
  apply str_replace_changes; try assumption.
  apply find_matching_paths_iff in Hp as (v & _ & <- & Hq).
  now apply qualifies_inv in Hq.
Qed.

Lemma destination_differs_from_source_example :
  "./jupyter/minimal-3.11" <> "./jupyter/minimal-3.9".
Proof.
  apply (destination_differs_from_source "." "3.9" "3.11" "minimal"
           (Dir [("jupyter",
                  Dir [("minimal-3.9", Dir [("Dockerfile", File "FROM python:3.9")])])])).
  - discriminate.
  - discriminate.
  - vm_compute. tauto.
Defined.

(** ** Where the walk goes *)

Lemma os_path_join_extends (top name : string) :
  startswith name "/" = false -> exists r, os_path_join top name = top ++ r.
Proof.
  intros H. unfold os_path_join. rewrite H.
  destruct ((top =? "") || endswith top "/"); eexists; reflexivity.
Qed.

Lemma startswith_shorter (x a r : string) :
  startswith x (a ++ r) = true -> startswith x a = true.
Proof.
  intros H. apply startswith_inv in H as [z ->].
  rewrite sapp_assoc. apply startswith_app.
Qed.

Lemma startswith_refl (x : string) : startswith x x = true.
Proof. rewrite <- (sapp_nil_r x) at 1. apply startswith_app. Qed.

(** A visit of the trace of an entry is a visit of the trace of the
    directory. *)
Lemma os_walk_trace_entry (prune : string -> bool) (top name : string)
    (sub : node) (es : list (string * node)) (u : visit) :
  prune top = false -> In (name, sub) es ->
  In u (os_walk_trace prune (os_path_join top name) sub) ->
  In u (os_walk_trace prune top (Dir es)).
Proof.
  intros Hp Hin Hu. cbn [os_walk_trace]. rewrite Hp. right.
  induction es as [|[n c] es IH]; [contradiction|].
  apply in_or_app. destruct Hin as [E | Hin].
  - injection E as -> ->. now left.
  - right. now apply IH.
Qed.

Lemma os_walk_trace_from (prune : string -> bool) (top : string)
    (es : list (string * node)) (v : visit) :
  In v (os_walk_trace prune top (Dir es)) ->
  v = (top, dir_names es, file_names es) \/
  exists name sub,
    In (name, sub) es /\ In v (os_walk_trace prune (os_path_join top name) sub).
Proof.
  cbn [os_walk_trace]. intros [<- | Hv]; [now left|]. right.
  destruct (prune top); [contradiction|].
  induction es as [|[n c] es IH]; [contradiction|].
  apply in_app_or in Hv as [Hv | Hv].
  - exists n, c. split; [now left | assumption].
  - destruct (IH Hv) as (name & sub & Hin & Hv').
    exists name, sub. split; [now right | assumption].
Qed.

Lemma os_walk_trace_under (prune : string -> bool) (n : node) :
  relative_names n = true ->
  forall top v, In v (os_walk_trace prune top n) ->
                startswith (visit_root v) top = true.
Proof.
  induction n as [content | es IH] using node_ind'; intros Hrel top v Hv;
    [contradiction|].
  apply os_walk_trace_from in Hv as [-> | (name & sub & Hin & Hv)].
  - apply startswith_refl.
  - cbn [relative_names] in Hrel. rewrite forallb_forall in Hrel.
    specialize (Hrel _ Hin). cbn [fst snd] in Hrel.
    apply andb_true_iff in Hrel as [Hname Hsub]. apply negb_true_iff in Hname.
    rewrite Forall_forall in IH. specialize (IH _ Hin Hsub _ _ Hv).
    destruct (os_path_join_extends top name Hname) as [r E].
    rewrite E in IH. now apply startswith_shorter in IH.
Qed.

(** X11.  In a tree whose entry names do not start with the separator,
    every returned path starts with [context_dir]. *)
Theorem find_matching_paths_under_context
    (context_dir source_version match_ : string) (tree : node) (p : string) :
  relative_names tree = true ->
  In p (find_matching_paths context_dir source_version match_ tree) ->
  startswith p context_dir = true.
Proof.
  intros Hrel Hp. apply find_matching_paths_iff in Hp as (v & Hv & <- & _).
  now apply (os_walk_trace_under (find_prune source_version match_) tree Hrel
             context_dir v).
Qed.

Lemma find_matching_paths_under_context_example :
  startswith "repo/jupyter/minimal-3.9" "repo" = true.
Proof.
  apply (find_matching_paths_under_context "repo" "3.9" "minimal"
           (Dir [("jupyter",
                  Dir [("minimal-3.9", Dir [("Dockerfile", File "FROM python:3.9")])])])).
  - reflexivity.
  - vm_compute. tauto.
Defined.

Lemma lookup_entry_In (name : string) (c : node) (es : list (string * node)) :
  lookup_entry name es = Some c -> In (name, c) es.
Proof.
  induction es as [|[n c0] es IH]; cbn [lookup_entry]; [discriminate|].
  destruct (n =? name) eqn:E.
  - apply String.eqb_eq in E. intros H. injection H as ->. subst. now left.
  - intros H. right. now apply IH.
Qed.

(** The walk yields the directory found at [q], under its path string, as
    long as it prunes at none of the directories on the way. *)
Lemma os_walk_trace_reaches (prune : string -> bool) (q : tree_path) :
  forall (top : string) (n : node) (es : list (string * node)),
    lookup q n = Some (Dir es) ->
    (forall q1 q2, q = (q1 ++ q2)%list -> q2 <> [] ->
                   prune (path_string top q1) = false) ->
    In (path_string top q, dir_names es, file_names es)
       (os_walk_trace prune top n).
Proof.
  induction q as [|name q IH]; intros top n es Hl Hpr.
  - cbn in Hl. injection Hl as ->. now left.
  - cbn [lookup] in Hl. destruct n as [|es0]; [discriminate|].
    destruct (lookup_entry name es0) as [c|] eqn:E; [|discriminate].
    apply (os_walk_trace_entry prune top name c es0).
    + apply (Hpr [] (name :: q) eq_refl). discriminate.
    + now apply lookup_entry_In.
    + change (path_string top (name :: q))
        with (path_string (os_path_join top name) q).
      apply IH; [assumption|].
      intros q1 q2 -> Hq2.
      apply (Hpr (name :: q1) q2 eq_refl Hq2).
Qed.

(** X12.  A directory of the tree that lists a [Dockerfile], is not
    blocked and has both substrings in its path is returned, provided that
    none of the directories above it is blocked or has both substrings in
    its path. *)
Theorem find_matching_paths_reaches
    (context_dir source_version match_ : string) (tree : node)
    (q : tree_path) (es : list (string * node)) :
  lookup q tree = Some (Dir es) ->
  (forall q1 q2, q = (q1 ++ q2)%list -> q2 <> [] ->
     find_prune source_version match_ (path_string context_dir q1) = false) ->
  qualifies source_version match_
    (path_string context_dir q, dir_names es, file_names es) = true ->
  In (path_string context_dir q)
     (find_matching_paths context_dir source_version match_ tree).
Proof.
  intros Hl Hpr Hq. apply find_matching_paths_iff.
  exists (path_string context_dir q, dir_names es, file_names es).
  split; [|split; [reflexivity | assumption]].
  now apply os_walk_trace_reaches.
Qed.

Lemma find_matching_paths_reaches_example :
  In "./jupyter/minimal-3.9"
    (find_matching_paths "." "3.9" "minimal"
       (Dir [("jupyter",
              Dir [("minimal-3.9", Dir [("Dockerfile", File "FROM python:3.9")])])])).
Proof.
  apply (find_matching_paths_reaches "." "3.9" "minimal" _
           ["jupyter"; "minimal-3.9"] [("Dockerfile", File "FROM python:3.9")]).
  - reflexivity.
  - intros q1 q2 E Hq2. destruct q1 as [|x [|y [|z q1]]]; cbn [app] in E.
    + reflexivity.
    + injection E as <- _. reflexivity.
    + injection E as _ _ <-. congruence.
    + discriminate E.
  - reflexivity.
Defined.

(** ** TreeCopier: every entry is accounted for *)

Section CopyAccounts.
Variable FS : Type.
Variable os_path_exists : string -> FS -> bool.
Variable copytree : string -> string -> FS -> bool * FS.

Lemma copy_loop_accounts (items : dict) (fs : FS) :
  Permutation
    (success_of (copy_loop os_path_exists copytree items ([], [], fs)) ++
     failed_of (copy_loop os_path_exists copytree items ([], [], fs)))
    (map snd items).
Proof.
  revert fs; induction items as [|[src dst] items IH]; intros fs;
    [constructor|].
  rewrite copy_loop_cons. unfold copy_step.
  destruct (os_path_exists dst fs); [|destruct (copytree src dst fs) as [[|] fs']];
    rewrite copy_loop_from; unfold success_of, failed_of in *;
    cbn [fst snd map app].
  - etransitivity; [symmetry; apply Permutation_middle|].
    constructor. apply IH.
  - constructor. apply IH.
  - etransitivity; [symmetry; apply Permutation_middle|].
    constructor. apply IH.
Qed.

(** X13.  Each destination of the mapping is recorded exactly once,
    either as a success or as a failure, whatever the copies do. *)
Theorem copy_paths_accounts (paths_dict : dict) (fs : FS) :
  Permutation
    (success_of (copy_paths os_path_exists copytree paths_dict fs) ++
     failed_of (copy_paths os_path_exists copytree paths_dict fs))
    (map snd paths_dict).
Proof. apply copy_loop_accounts. Qed.
End CopyAccounts.

(** ** Orchestration: skipped and aborted paths *)

Section ProcessFacts.
Variable World : Type.
Variable read_tree : string -> World -> option node.
Variable os_path_exists : string -> World -> bool.
Variable rewrite_at : string -> string -> string -> World -> option World.
Variable run_pipenv_lock : string -> string -> World -> bool * World.

Lemma process_fold_raised (sv tv : string) (paths : list string) :
  fold_left (process_step read_tree os_path_exists rewrite_at run_pipenv_lock sv tv)
    paths None = None.
Proof. induction paths as [|p paths IH]; [reflexivity | exact IH]. Qed.

Lemma process_fold_missing (sv tv : string) (paths : list string)
    (s f : list string) (w : World) :
  (forall p, In p paths -> os_path_exists p w = false) ->
  fold_left (process_step read_tree os_path_exists rewrite_at run_pipenv_lock sv tv)
    paths (Some (s, f, w)) = Some (s, f, w).
Proof.
  induction paths as [|p paths IH]; intros H; [reflexivity|].
  cbn [fold_left process_step]. rewrite (H p (or_introl eq_refl)). cbn [negb].
  apply IH. intros q Hq. apply H. now right.
Qed.

(** X14.  Copied paths that do not exist are skipped: when none of them
    exists, nothing is rewritten, no lock command runs and the world is
    returned as it was. *)
Theorem process_paths_skips_missing (copied_paths : list string)
    (source_version target_version : string) (w : World) :
  (forall p, In p copied_paths -> os_path_exists p w = false) ->
  process_paths read_tree os_path_exists rewrite_at run_pipenv_lock
    copied_paths source_version target_version w = Some ([], [], w).
Proof. apply process_fold_missing. Qed.

(** X15.  When the rewriting of one existing path raises, the whole of
    [process_paths] raises: the paths after it are not processed and no
    result is returned. *)
Theorem process_paths_aborts (pre post : list string) (p : string)
    (source_version target_version : string) (w w1 : World)
    (s f : list string) :
  process_paths read_tree os_path_exists rewrite_at run_pipenv_lock
    pre source_version target_version w = Some (s, f, w1) ->
  os_path_exists p w1 = true ->
  rewrite_at p source_version target_version w1 = None ->
  process_paths read_tree os_path_exists rewrite_at run_pipenv_lock
    (pre ++ p :: post)%list source_version target_version w = None.
Proof.
  unfold process_paths. intros Hpre Hex Hraise.
  rewrite fold_left_app, Hpre. cbn [fold_left process_step].
  rewrite Hex, Hraise. cbn [negb]. apply process_fold_raised.
Qed.
End ProcessFacts.

Lemma process_paths_skips_missing_example :
  process_paths Machine.read_tree Machine.os_path_exists Machine.rewrite_at
    Machine.run_pipenv_lock ["./minimal-3.11"] "3.9" "3.11"
    (Machine.mk_world (Dir [("minimal-3.9", Dir [])]) [])
  = Some ([], [], Machine.mk_world (Dir [("minimal-3.9", Dir [])]) []).
Proof.
  apply process_paths_skips_missing.
  intros p [<- | []]. reflexivity.
Defined.

Lemma process_paths_aborts_example :
  process_paths Machine.read_tree Machine.os_path_exists Machine.rewrite_at
    Machine.run_pipenv_lock ([] ++ "./minimal-3.11" :: ["./other-3.11"])%list
    "3.9" "3.11"
    (Machine.mk_world
       (Dir [("minimal-3.11",
              Dir [("lib-3.9", Dir [("a.txt", File "")]);
                   ("lib-3.11", Dir [("b.txt", File "")])]);
             ("other-3.11", Dir [("Pipfile", File "")])])
       [])
  = None.
Proof.
  eapply (process_paths_aborts Machine.world Machine.read_tree
            Machine.os_path_exists Machine.rewrite_at Machine.run_pipenv_lock
            [] ["./other-3.11"] "./minimal-3.11"); reflexivity.
Defined.

(** ** LockRegenerator: manifests at every depth *)

Lemma lookup_file_parent (q : tree_path) (name content : string) (tree : node) :
  lookup (q ++ [name])%list tree = Some (File content) ->
  exists es, lookup q tree = Some (Dir es) /\ In name (file_names es).
Proof.
  rewrite lookup_app. destruct (lookup q tree) as [[c | es]|]; try discriminate.
  cbn [lookup]. destruct (lookup_entry name es) as [c|] eqn:E; [|discriminate].
  intros H. injection H as ->. exists es. split; [reflexivity|].
  apply file_names_iff. exists (File content).
  split; [now apply lookup_entry_In | reflexivity].
Qed.

(** X16.  A file found anywhere below [path], at any depth, whose name
    starts with [Pipfile] and does not contain [lock], is handed to the
    lock command: its path is recorded among the successes or the
    failures. *)
Theorem process_pipfiles_reaches (W : Type)
    (run_pipenv_lock : string -> string -> W -> bool * W)
    (path target_version : string) (tree : node) (w : W)
    (q : tree_path) (name content : string) :
  lookup (q ++ [name])%list tree = Some (File content) ->
  is_manifest name = true ->
  In (os_path_join (path_string path q) name)
     (fst (fst (process_pipfiles run_pipenv_lock path target_version tree w)) ++
      snd (fst (process_pipfiles run_pipenv_lock path target_version tree w))).
Proof.
  intros Hl Hm.
  apply lookup_file_parent in Hl as (es & Hq & Hname).
  rewrite process_pipfiles_lock_all.
  apply (Permutation_in _
           (Permutation_sym
              (lock_all_partition W run_pipenv_lock target_version
                 (manifests_of path tree) ([], [], w)))).
  cbn [fst snd app]. apply manifests_of_iff.
  exists (path_string path q, dir_names es, file_names es), name.
  unfold is_manifest in Hm. apply andb_true_iff in Hm as [Hm1 Hm2].
  apply negb_true_iff in Hm2.
  repeat split; try assumption.
  apply os_walk_trace_reaches; [assumption | reflexivity].
Qed.

Lemma process_pipfiles_reaches_example :
  In "./minimal-3.11/gpu/Pipfile"
    (fst (fst (process_pipfiles Machine.run_pipenv_lock "./minimal-3.11" "3.11"
                 (Dir [("gpu", Dir [("Pipfile", File ""); ("Pipfile.lock", File "")])])
                 (Machine.mk_world (Dir []) []))) ++
     snd (fst (process_pipfiles Machine.run_pipenv_lock "./minimal-3.11" "3.11"
                 (Dir [("gpu", Dir [("Pipfile", File ""); ("Pipfile.lock", File "")])])
                 (Machine.mk_world (Dir []) [])))).
Proof.
  apply (process_pipfiles_reaches Machine.world Machine.run_pipenv_lock
           "./minimal-3.11" "3.11" _ _ ["gpu"] "Pipfile" "");
    reflexivity.
Defined.

(** ** TreeRewriter: trees it leaves alone *)

Lemma replace_version_in_directory_clash_free (a b c d : string)
    (es : list (string * node)) :
  is_number a = true -> is_number b = true ->
  is_number c = true -> is_number d = true ->
  collision_free (rewrite_text (a ++ "." ++ b) (c ++ "." ++ d)) (Dir es) = true ->
  replace_version_in_directory (Dir es) (a ++ "." ++ b) (c ++ "." ++ d) =
  Done (rewrite_tree (a ++ "." ++ b) (c ++ "." ++ d) (Dir es)).
Proof.
  intros Ha Hb Hc Hd Hcf. unfold replace_version_in_directory.
  rewrite (walk_bottomup_post_order _ _ _ es [] (Dir es));
    [| lia | now apply (collision_free_unique _ _ Hcf) | reflexivity].
  rewrite rewrite_post_order_clash_free; [reflexivity | | assumption | reflexivity].
  intros x. now apply rewrite_text_valid.
Qed.

Section FixedTexts.
(** A renaming that leaves the texts of interest alone. *)
Variable rw : string -> string.
Variable fixed : string -> bool.
Hypothesis Hfixed : forall x, fixed x = true -> rw x = x.

Lemma map_fixed (l : list string) :
  forallb fixed l = true -> map rw l = l.
Proof.
  induction l as [|x l IH]; [reflexivity|].
  cbn [forallb map]. intros H. apply andb_true_iff in H as [H1 H2].
  now rewrite (Hfixed x H1), IH.
Qed.

Lemma names_ok_fixed (names : list string) :
  nodupb names = true -> forallb fixed names = true ->
  names_ok rw names = true.
Proof.
  intros Hnd Hfix. unfold names_ok.
  rewrite (map_fixed names Hfix), Hnd. cbn [andb].
  apply forallb_forall. intros n Hn.
  rewrite forallb_forall in Hfix. rewrite (Hfixed n (Hfix n Hn)).
  now rewrite String.eqb_refl.
Qed.
End FixedTexts.

Section UntouchedTree.
Variables sv tv : string.
Hypothesis Hfree :
  forall x, free_of_forms sv x = true -> rewrite_text sv tv x = x.

Lemma tree_free_inv (es : list (string * node)) :
  tree_free_of_forms sv (Dir es) = true ->
  forallb (free_of_forms sv) (map fst es) = true /\
  forall n c, In (n, c) es -> tree_free_of_forms sv c = true.
Proof.
  cbn [tree_free_of_forms]. rewrite forallb_forall. intros H. split.
  - apply forallb_forall. intros n Hn.
    apply in_map_iff in Hn as ([m c] & <- & Hin).
    specialize (H _ Hin). now apply andb_true_iff in H.
  - intros n c Hin. specialize (H _ Hin). now apply andb_true_iff in H.
Qed.

Lemma rewrite_tree_free (n : node) :
  tree_free_of_forms sv n = true -> rewrite_tree sv tv n = n.
Proof.
  induction n as [content | es IH] using node_ind'; intros H.
  - cbn [rewrite_tree tree_free_of_forms] in *. now rewrite Hfree.
  - apply tree_free_inv in H as [Hnames Hsubs].
    cbn [rewrite_tree]. f_equal.
    rewrite <- (map_id es) at 2. apply map_ext_in. intros [m c] Hin.
    cbn [fst snd]. rewrite Forall_forall in IH.
    specialize (IH _ Hin (Hsubs m c Hin)). cbn [snd] in IH.
    rewrite IH. f_equal.
    apply Hfree. rewrite forallb_forall in Hnames. apply Hnames.
    apply in_map_iff. now exists (m, c).
Qed.

Lemma collision_free_untouched (n : node) :
  unique_names n = true -> tree_free_of_forms sv n = true ->
  collision_free (rewrite_text sv tv) n = true.
Proof.
  induction n as [content | es IH] using node_ind'; intros Hun Hf;
    [reflexivity|].
  apply tree_free_inv in Hf as [Hnames Hsubs].
  cbn [unique_names] in Hun. apply andb_true_iff in Hun as [Hnd Hch].
  cbn [collision_free]. apply andb_true_iff. split.
  - now apply (names_ok_fixed _ (free_of_forms sv) Hfree).
  - apply forallb_forall. intros [m c] Hin. cbn [snd].
    rewrite Forall_forall in IH. rewrite forallb_forall in Hch.
    apply (IH _ Hin); [apply (Hch _ Hin) | apply (Hsubs m c Hin)].
Qed.
End UntouchedTree.

Lemma rewrite_text_unrelated (a b c d x : string) :
  is_number a = true -> is_number b = true ->
  is_number c = true -> is_number d = true ->
  free_of_forms (a ++ "." ++ b) x = true ->
  rewrite_text (a ++ "." ++ b) (c ++ "." ++ d) x = x.
Proof.
  intros Ha Hb Hc Hd H. unfold rewrite_text.
  now rewrite (rewrite_unrelated a b c d x Ha Hb Hc Hd H).
Qed.

Lemma untouched_tree_stays (a b c d : string) (es : list (string * node)) :
  is_number a = true -> is_number b = true ->
  is_number c = true -> is_number d = true ->
  unique_names (Dir es) = true ->
  tree_free_of_forms (a ++ "." ++ b) (Dir es) = true ->
  replace_version_in_directory (Dir es) (a ++ "." ++ b) (c ++ "." ++ d) =
  Done (Dir es).
Proof.
  intros Ha Hb Hc Hd Hun Hf.
  assert (Hfree : forall x, free_of_forms (a ++ "." ++ b) x = true ->
                            rewrite_text (a ++ "." ++ b) (c ++ "." ++ d) x = x)
    by (intros x; now apply rewrite_text_unrelated).
  rewrite replace_version_in_directory_clash_free; try assumption.
  - now rewrite (rewrite_tree_free _ _ Hfree (Dir es) Hf).
  - now apply collision_free_untouched.
Qed.



Section SettledTree.
Variables sv tv : string.
Hypothesis Hsettled :
  forall x, free_of_forms sv (rewrite_text sv tv x) = true.

Lemma rewritten_tree_free (n : node) :
  tree_free_of_forms sv (rewrite_tree sv tv n) = true.
Proof.
  induction n as [content | es IH] using node_ind';
    cbn [rewrite_tree tree_free_of_forms]; [apply Hsettled|].
  apply forallb_forall. intros e He.
  apply in_map_iff in He as ([m c] & <- & Hin). cbn [fst snd].
  rewrite Hsettled. rewrite Forall_forall in IH. apply (IH _ Hin).
Qed.

Lemma rewritten_tree_unique (n : node) :
  collision_free (rewrite_text sv tv) n = true ->
  unique_names (rewrite_tree sv tv n) = true.
Proof.
  induction n as [content | es IH] using node_ind'; intros Hcf;
    [reflexivity|].
  cbn [collision_free] in Hcf. apply andb_true_iff in Hcf as [Hok Hch].
  cbn [rewrite_tree unique_names]. apply andb_true_iff. split.
  - rewrite map_map. cbn [fst].
    unfold names_ok in Hok. rewrite !andb_true_iff in Hok.
    destruct Hok as [[_ Hnd] _]. now rewrite map_map in Hnd.
  - apply forallb_forall. intros e He.
    apply in_map_iff in He as ([m c] & <- & Hin). cbn [snd].
    rewrite Forall_forall in IH. rewrite forallb_forall in Hch.
    apply (IH _ Hin), (Hch _ Hin).
Qed.
End SettledTree.

(** X18.  For a version pair as in X6 and a tree without clashes among
    siblings, running [replace_version_in_directory] on its own result
    changes nothing: the second run returns the tree the first run
    produced. *)
Theorem replace_version_in_directory_twice (a b c d : string)
    (es : list (string * node)) :
  is_number a = true -> is_number b = true ->
  is_number c = true -> is_number d = true ->
  forms_independent (a ++ "." ++ b) (c ++ "." ++ d) = true ->
  sources_apart_from_targets (a ++ "." ++ b) (c ++ "." ++ d) = true ->
  collision_free (rewrite_text (a ++ "." ++ b) (c ++ "." ++ d)) (Dir es) = true ->
  exists t',
    replace_version_in_directory (Dir es) (a ++ "." ++ b) (c ++ "." ++ d) = Done t' /\
    replace_version_in_directory t' (a ++ "." ++ b) (c ++ "." ++ d) = Done t'.
Proof.
  intros Ha Hb Hc Hd Hind Hst Hcf.
  exists (rewrite_tree (a ++ "." ++ b) (c ++ "." ++ d) (Dir es)).
  split; [now apply replace_version_in_directory_clash_free|].
  assert (Hsettled : forall x,
             free_of_forms (a ++ "." ++ b)
               (rewrite_text (a ++ "." ++ b) (c ++ "." ++ d) x) = true)
    by (intros x; now apply rewritten_text_free).
  pose proof (rewritten_tree_free _ _ Hsettled (Dir es)) as Hf.
  pose proof (rewritten_tree_unique (a ++ "." ++ b) (c ++ "." ++ d) (Dir es) Hcf)
    as Hun.
  cbn [rewrite_tree] in *. now apply untouched_tree_stays.
Qed.

Lemma replace_version_in_directory_twice_example :
  exists t',
    replace_version_in_directory
      (Dir [("v3.9", Dir [("sub", Dir [("file_py39.txt", File "python-39 on 3.9")])])])
      "3.9" "3.11" = Done t' /\
    replace_version_in_directory t' "3.9" "3.11" = Done t'.
Proof.
  apply (replace_version_in_directory_twice "3" "9" "3" "11"); reflexivity.
Defined.
